(** * svckit/metric/prometheus: the metric store, its name sanitizer,
      the prefix cache and the exposition server life cycle.

    A shallow embedding of the Go package [prometheus] of svckit.  Go
    strings are byte sequences ([string] of 8-bit [ascii]); Go [int] is a
    64-bit two's complement integer ([Z] with explicit wrap-around);
    [float64] is IEEE binary64 ([spec_float] with precision 53); Go maps
    are [gmap]s; pointers are addresses into explicit heaps.

    The client library (registry, type assertions), the mux and the
    network are interfaces of the embedding; what the clock reads is an
    input of [Timing].  The loop of [MustDial] is given twice: over the
    results of [Dial] taken as inputs (module [Dialing]) and over
    [Dial] as it is written (module [Driver]).  [TryDial] hangs on
    signals and is left out. *)

From Stdlib Require Import ZArith NArith String Ascii List Lia Bool.
From Stdlib Require Import Floats.SpecFloat.
From stdpp Require Import base option gmap strings list.

Local Open Scope string_scope.

(* ===================================================================== *)
(** * Part I. Definitions                                                 *)
(* ===================================================================== *)

(** ** Bytes and character classes *)

Module Char.

Definition code (c : ascii) : N := N_of_ascii c.

Definition between (lo hi : N) (c : ascii) : bool :=
  ((lo <=? code c) && (code c <=? hi))%N.

Definition is_lower : ascii -> bool := between 97 122.   (* a-z *)
Definition is_upper : ascii -> bool := between 65 90.    (* A-Z *)
Definition is_digit : ascii -> bool := between 48 57.    (* 0-9 *)
Definition is_underscore (c : ascii) : bool := (code c =? 95)%N.
Definition is_colon (c : ascii) : bool := (code c =? 58)%N.
Definition is_dot (c : ascii) : bool := (code c =? 46)%N.

(** The character class [[a-zA-Z0-9_:]]. *)
Definition is_name_char (c : ascii) : bool :=
  is_lower c || is_upper c || is_digit c || is_underscore c || is_colon c.

(** The character class [[a-zA-Z_]]. *)
Definition is_name_start (c : ascii) : bool :=
  is_lower c || is_upper c || is_underscore c.

(** Bytes below [utf8.RuneSelf] are runes of their own. *)
Definition is_ascii (c : ascii) : bool := (code c <? 128)%N.

End Char.

(** ** Rune stepping of Go's [regexp] over a string

    [regexp] reads its input rune by rune: a byte below 0x80 is one
    rune; otherwise [utf8.DecodeRuneInString] is consulted, which yields
    either a well-formed sequence of 2 to 4 bytes or [RuneError] of
    width 1.  Only the width matters below: a rune that is not a single
    ASCII byte is never a member of an ASCII character class. *)

Module Utf8.

(** The [first] table of [unicode/utf8] for lead bytes at or above
    0x80: the sequence length and the accepted range of the second
    byte; [None] stands for the invalid entries ([xx]). *)
Definition lead (b : N) : option (nat * N * N) :=
  (if b <? 194 then None                          (* 0x80-0xC1 *)
   else if b <=? 223 then Some (2%nat, 128, 191)  (* 0xC2-0xDF *)
   else if b =? 224 then Some (3%nat, 160, 191)   (* 0xE0 *)
   else if b <=? 236 then Some (3%nat, 128, 191)  (* 0xE1-0xEC *)
   else if b =? 237 then Some (3%nat, 128, 159)   (* 0xED *)
   else if b <=? 239 then Some (3%nat, 128, 191)  (* 0xEE-0xEF *)
   else if b =? 240 then Some (4%nat, 144, 191)   (* 0xF0 *)
   else if b <=? 243 then Some (4%nat, 128, 191)  (* 0xF1-0xF3 *)
   else if b =? 244 then Some (4%nat, 128, 143)   (* 0xF4 *)
   else None)%N.                                  (* 0xF5-0xFF *)

Definition in_range (lo hi : N) (c : ascii) : bool :=
  ((lo <=? Char.code c) && (Char.code c <=? hi))%N.

(** Continuation byte, 0x80-0xBF. *)
Definition is_cont : ascii -> bool := in_range 128 191.

(** Width in bytes of the rune that starts with the non-ASCII byte
    [c0] and is followed by [rest]. *)
Definition width (c0 : ascii) (rest : string) : nat :=
  match lead (Char.code c0) with
  | None => 1
  | Some (sz, lo, hi) =>
      if (String.length rest <? sz - 1)%nat then 1
      else
        match rest with
        | String c1 rest1 =>
            if negb (in_range lo hi c1) then 1
            else if (sz <=? 2)%nat then 2
            else
              match rest1 with
              | String c2 rest2 =>
                  if negb (is_cont c2) then 1
                  else if (sz <=? 3)%nat then 3
                  else
                    match rest2 with
                    | String c3 _ => if negb (is_cont c3) then 1 else 4
                    | EmptyString => 1
                    end
              | EmptyString => 1
              end
        | EmptyString => 1
        end
  end.

End Utf8.

(** ** The name sanitizer *)

(** [strings.ReplaceAll(name, ".", "_")]. *)
Fixpoint replaceDots (name : string) : string :=
  match name with
  | EmptyString => EmptyString
  | String c rest =>
      String (if Char.is_dot c then "_"%char else c) (replaceDots rest)
  end.

(** [invalidCharsRegex.ReplaceAllString(name, "_")] for the expression
    [[^a-zA-Z0-9_:]]: every rune outside the class is replaced by one
    underscore.  [skip] counts the bytes still to be dropped of a
    multi-byte rune that has already been replaced. *)
Fixpoint replaceInvalidFrom (skip : nat) (name : string) : string :=
  match name with
  | EmptyString => EmptyString
  | String c rest =>
      match skip with
      | S k => replaceInvalidFrom k rest
      | O =>
          if Char.is_ascii c then
            String (if Char.is_name_char c then c else "_"%char)
                   (replaceInvalidFrom 0 rest)
          else
            String "_"%char (replaceInvalidFrom (Utf8.width c rest - 1) rest)
      end
  end.

Definition replaceInvalid (name : string) : string := replaceInvalidFrom 0 name.

(** [startsWithInvalidRegex.MatchString(name)] for [^[^a-zA-Z_]]: the
    string has a first rune and it is not a letter or underscore. *)
Definition startsWithInvalid (name : string) : bool :=
  match name with
  | EmptyString => false
  | String c _ => negb (Char.is_name_start c)
  end.

Definition sanitizeName (name : string) : string :=
  let name := replaceDots name in
  let name := replaceInvalid name in
  if startsWithInvalid name then String "_"%char name else name.

(** The identifier grammar of the backend,
    [^[A-Za-z_][A-Za-z0-9_:]*$], as a decision procedure. *)
Fixpoint all_name_chars (s : string) : bool :=
  match s with
  | EmptyString => true
  | String c rest => Char.is_name_char c && all_name_chars rest
  end.

Definition matches_identifier (s : string) : bool :=
  match s with
  | EmptyString => false
  | String c rest => Char.is_name_start c && all_name_chars rest
  end.

(** ** Go's [int] and [float64] *)

Module GoInt.

(** [int] on the 64-bit targets the package is built for. *)
Definition bits : Z := 64.
Definition min_int : Z := - 2 ^ (bits - 1).
Definition max_int : Z := 2 ^ (bits - 1) - 1.

Definition in_range (z : Z) : Prop := (min_int <= z <= max_int)%Z.

(** Two's complement wrap-around into [min_int .. max_int]. *)
Definition wrap (z : Z) : Z :=
  ((z + 2 ^ (bits - 1)) mod 2 ^ bits - 2 ^ (bits - 1))%Z.

(** [a + b] on [int]. *)
Definition add (a b : Z) : Z := wrap (a + b).

End GoInt.

Module Float64.

Definition prec : Z := 53.
Definition emax : Z := 1024.

(** The conversion [float64(i)] of an [int]: the nearest binary64
    value, ties to even. *)
Definition of_int (i : Z) : spec_float := binary_normalize prec emax i 0 false.

(** The quotient [x / y] on [float64]. *)
Definition div (x y : spec_float) : spec_float := SFdiv prec emax x y.

(** The constant [1e9], an exactly representable value. *)
Definition c1e9 : spec_float := of_int 1000000000.

End Float64.

(** ** Collectors, errors, log entries *)

(** The three kinds of metric handle, standing for the interface types
    [prometheus.Counter], [prometheus.Gauge] and [prometheus.Histogram]. *)
Inductive Kind := KCounter | KGauge | KHistogram.

(** A collector is known by its identity (the address of the object
    behind the interface value). *)
Definition collector := nat.

(** [CounterOpts], [GaugeOpts], [HistogramOpts]; [Buckets] is present
    for histograms only. *)
Record Opts := {
  Namespace : string;
  Subsystem : string;
  Name : string;
  Help : string;
  Buckets : option (list spec_float)
}.

Inductive error :=
| AlreadyRegisteredError (ExistingCollector NewCollector : collector)
| OtherError (msg : string).

(** A field attached to a log line, [S(key, value)] or [I(key, value)]. *)
Inductive Field :=
| FStr (key value : string)
| FInt (key : string) (value : Z).

(** A log line of the package logger, which always carries the field
    [lib]. *)
Inductive LogEntry :=
| LogError (fields : list Field) (err : error)
| LogInfo (fields : list Field) (msg : string).

Definition lib_field : Field := FStr "lib" "svckit.metric.prometheus".

(** A method call made on a metric handle. *)
Inductive Call :=
| Add (v : spec_float)
| Set_ (v : spec_float)
| Observe (v : spec_float).

(** The client library, which is not part of this package: the state of
    one [*prometheus.Registry] with its [Register] method, and the
    dynamic type test behind a type assertion [c.(prometheus.K)]. *)
Class Backend := {
  registry : Type;
  Register : registry -> collector -> Kind -> Opts -> registry * option error;
  implements : collector -> Kind -> bool
}.

(** The types of collector that the client library builds: those
    behind [NewCounter], [NewGauge], [NewHistogram] and [NewSummary],
    and [DOther] for the rest (vectors, metrics backed by a function),
    which have none of [Inc], [Add], [Set] and [Observe]. *)
Inductive DynType := DCounter | DGauge | DHistogram | DSummary | DOther.




(** ** The metric store *)

Module Store.

(** The struct [Prometheus]; the two mutexes carry no data.  A
    [*Prometheus] is an address in the heap of stores; [None] in the
    [prefixes] map is a nil pointer. *)
Record Prometheus := {
  prefix : string;
  namespace : string;
  subsystem : string;
  registry_ptr : nat;
  counters : gmap string collector;
  gauges : gmap string collector;
  histograms : gmap string collector;
  buckets : list spec_float;
  prefixes : gmap string (option nat)
}.

(** [p.counters], [p.gauges] or [p.histograms]. *)
Definition handles (k : Kind) (p : Prometheus) : gmap string collector :=
  match k with
  | KCounter => counters p
  | KGauge => gauges p
  | KHistogram => histograms p
  end.

(** [p.counters[name] = h] and its two siblings. *)
Definition set_handle (k : Kind) (name : string) (h : collector)
    (p : Prometheus) : Prometheus :=
  match k with
  | KCounter =>
      {| prefix := prefix p; namespace := namespace p; subsystem := subsystem p;
         registry_ptr := registry_ptr p;
         counters := <[name := h]> (counters p);
         gauges := gauges p; histograms := histograms p;
         buckets := buckets p; prefixes := prefixes p |}
  | KGauge =>
      {| prefix := prefix p; namespace := namespace p; subsystem := subsystem p;
         registry_ptr := registry_ptr p;
         counters := counters p;
         gauges := <[name := h]> (gauges p);
         histograms := histograms p;
         buckets := buckets p; prefixes := prefixes p |}
  | KHistogram =>
      {| prefix := prefix p; namespace := namespace p; subsystem := subsystem p;
         registry_ptr := registry_ptr p;
         counters := counters p; gauges := gauges p;
         histograms := <[name := h]> (histograms p);
         buckets := buckets p; prefixes := prefixes p |}
  end.

(** [p.prefixes[key] = child]. *)
Definition set_prefix (key : string) (child : nat) (p : Prometheus) : Prometheus :=
  {| prefix := prefix p; namespace := namespace p; subsystem := subsystem p;
     registry_ptr := registry_ptr p;
     counters := counters p; gauges := gauges p; histograms := histograms p;
     buckets := buckets p;
     prefixes := <[key := Some child]> (prefixes p) |}.

Definition buildMetricName (p : Prometheus) (name : string) : string :=
  let sanitized := sanitizeName name in
  if negb (String.eqb (prefix p) "") then sanitizeName (prefix p) ++ sanitized
  else sanitized.

(** The first word of the help text of each kind. *)
Definition kind_label (k : Kind) : string :=
  match k with
  | KCounter => "Counter"
  | KGauge => "Gauge"
  | KHistogram => "Histogram"
  end.

(** The options handed to [NewCounter], [NewGauge], [NewHistogram]. *)
Definition new_opts (k : Kind) (p : Prometheus) (metricName : string) : Opts :=
  {| Namespace := namespace p;
     Subsystem := subsystem p;
     Name := metricName;
     Help := kind_label k ++ " metric: " ++ metricName;
     Buckets := match k with
                | KHistogram => Some (buckets p)
                | _ => None
                end |}.

Section WithBackend.
Context `{B : Backend}.

(** Everything the store's methods read or write. *)
Record World := {
  stores : list Prometheus;                 (* heap of [Prometheus] structs *)
  registries : gmap nat registry;           (* heap of registries *)
  created : gmap collector (Kind * Opts);   (* handles built by this package *)
  next_collector : collector;               (* identity of the next new handle *)
  log : list LogEntry;                      (* oldest first *)
  calls : list (collector * Call)           (* calls made on handles, oldest first *)
}.

(** State passing with panics: [None] is a run-time panic (a nil or
    dangling dereference, or a panic raised by the library). *)
Definition M (A : Type) : Type := World -> option (A * World).

Definition ret {A} (a : A) : M A := fun w => Some (a, w).
Definition bind {A C} (m : M A) (k : A -> M C) : M C :=
  fun w => match m w with
           | Some (a, w') => k a w'
           | None => None
           end.

Local Notation "'do' x <- m ;; k" := (bind m (fun x => k))
  (at level 10, x name, m at level 99, k at level 200).
Local Notation "'run' m ;; k" := (bind m (fun _ => k))
  (at level 10, m at level 99, k at level 200).

Definition set_stores (ss : list Prometheus) (w : World) : World :=
  {| stores := ss; registries := registries w; created := created w;
     next_collector := next_collector w; log := log w; calls := calls w |}.

Definition set_registries (rs : gmap nat registry) (w : World) : World :=
  {| stores := stores w; registries := rs; created := created w;
     next_collector := next_collector w; log := log w; calls := calls w |}.

(** The world after [prometheus.NewCounter(o)] or a sibling has built
    the handle [next_collector w]. *)
Definition add_created (k : Kind) (o : Opts) (w : World) : World :=
  {| stores := stores w; registries := registries w;
     created := <[next_collector w := (k, o)]> (created w);
     next_collector := S (next_collector w); log := log w; calls := calls w |}.

Definition add_log (e : LogEntry) (w : World) : World :=
  {| stores := stores w; registries := registries w; created := created w;
     next_collector := next_collector w; log := log w ++ [e]; calls := calls w |}.

Definition add_call (h : collector) (c : Call) (w : World) : World :=
  {| stores := stores w; registries := registries w; created := created w;
     next_collector := next_collector w; log := log w;
     calls := calls w ++ [(h, c)] |}.

(** Dereference of a [*Prometheus]. *)
Definition load (p : nat) : M Prometheus :=
  fun w => match stores w !! p with
           | Some s => Some (s, w)
           | None => None
           end.

(** Update in place of the struct behind a [*Prometheus]. *)
Definition modify (p : nat) (f : Prometheus -> Prometheus) : M unit :=
  fun w => match stores w !! p with
           | Some s => Some (tt, set_stores (<[p := f s]> (stores w)) w)
           | None => None
           end.

(** Allocation of a new struct, [&Prometheus{...}]. *)
Definition alloc (s : Prometheus) : M nat :=
  fun w => Some (length (stores w), set_stores (stores w ++ [s]) w).

(** [prometheus.NewCounter(opts)] and siblings, once the constructor
    has returned: a handle with a fresh identity.  [NewCounter] and
    [NewGauge] always return; the panic of [NewHistogram] is that of
    [getOrCreateHistogram] below. *)
Definition new_handle (k : Kind) (o : Opts) : M collector :=
  fun w => Some (next_collector w, add_created k o w).

(** [registry.Register(h)] on the registry behind the pointer [r]. *)
Definition register (r : nat) (h : collector) (k : Kind) (o : Opts)
    : M (option error) :=
  fun w => match registries w !! r with
           | Some reg =>
               Some (snd (Register reg h k o),
                     set_registries (<[r := fst (Register reg h k o)]> (registries w)) w)
           | None => None
           end.

(** [logger().S("name", metricName).Error(err)]. *)
Definition log_error (metricName : string) (err : error) : M unit :=
  fun w => Some (tt, add_log (LogError [lib_field; FStr "name" metricName] err) w).

(** A method call on a handle: the call is made and recorded.  What
    the method does with it is the library's and is not followed
    further; [faults] tells the calls that the library answers with a
    panic. *)
Definition call (h : collector) (c : Call) : M unit :=
  fun w => Some (tt, add_call h c w).

(** [Add] of a collector built by [NewCounter] panics on an amount
    below zero; [Add] of a gauge, [Set] and [Observe] take every
    amount. *)
Definition faults (t : DynType) (c : Call) : bool :=
  match t, c with
  | DCounter, Add v => SFltb v (Float64.of_int 0)
  | _, _ => false
  end.

Definition newPrometheus (prefix namespace subsystem : string) (registry : nat)
    (buckets : list spec_float) : M nat :=
  alloc {| prefix := prefix; namespace := namespace; subsystem := subsystem;
           registry_ptr := registry;
           counters := ∅; gauges := ∅; histograms := ∅;
           buckets := buckets; prefixes := ∅ |}.

(** The existing collector of an [AlreadyRegisteredError], when it
    passes the type assertion to the requested interface. *)
Definition adoptable (k : Kind) (err : error) : option collector :=
  match err with
  | AlreadyRegisteredError existing _ =>
      if implements existing k then Some existing else None
  | OtherError _ => None
  end.

(** [getOrCreateCounter], [getOrCreateGauge] and
    [getOrCreateHistogram] are one text up to the map, the
    constructor, the help text and the asserted interface, all
    selected here by [k]. *)
Definition getOrCreate (k : Kind) (p : nat) (name : string) : M collector :=
  do s <- load p ;;                                   (* RLock ... RUnlock *)
  match handles k s !! name with
  | Some h => ret h
  | None =>
      do s <- load p ;;                               (* Lock; double-check *)
      match handles k s !! name with
      | Some h => ret h
      | None =>
          let metricName := buildMetricName s name in
          do h <- new_handle k (new_opts k s metricName) ;;
          do res <- register (registry_ptr s) h k (new_opts k s metricName) ;;
          match res with
          | Some err =>
              match adoptable k err with
              | Some existing =>
                  run modify p (set_handle k name existing) ;;
                  ret existing
              | None =>
                  run log_error metricName err ;;
                  ret h
              end
          | None =>
              run modify p (set_handle k name h) ;;
              ret h
          end
      end
  end.

Definition getOrCreateCounter : nat -> string -> M collector := getOrCreate KCounter.
Definition getOrCreateGauge : nat -> string -> M collector := getOrCreate KGauge.

(** [prometheus.NewHistogram] goes through the bucket boundaries and
    panics on one that is greater than or equal to the next. *)
Fixpoint buckets_increasing (bs : list spec_float) : bool :=
  match bs with
  | [] => true
  | b :: rest =>
      match rest with
      | [] => true
      | next :: _ => negb (SFleb next b) && buckets_increasing rest
      end
  end.

Definition panic {A} : M A := fun _ => None.

(** [getOrCreateHistogram]: the same text, in which the constructor
    is reached on a miss only and panics there on buckets that are not
    strictly increasing. *)
Definition getOrCreateHistogram (p : nat) (name : string) : M collector :=
  do s <- load p ;;
  match histograms s !! name with
  | Some _ => getOrCreate KHistogram p name
  | None =>
      if buckets_increasing (buckets s) then getOrCreate KHistogram p name
      else panic
  end.

(** The loop [for _, v := range values { value += v }] from [value]. *)
Fixpoint sum_from (value : Z) (values : list Z) : Z :=
  match values with
  | [] => value
  | v :: vs => sum_from (GoInt.add value v) vs
  end.

(** The amount computed by [Counter] before the handle is fetched. *)
Definition counter_value (values : list Z) : Z :=
  if (0 <? length values)%nat then sum_from 0 values else 1%Z.

Definition Counter (p : nat) (name : string) (values : list Z) : M unit :=
  let value := counter_value values in
  do counter <- getOrCreateCounter p name ;;
  call counter (Add (Float64.of_int value)).

Definition Gauge (p : nat) (name : string) (value : Z) : M unit :=
  do gauge <- getOrCreateGauge p name ;;
  call gauge (Set_ (Float64.of_int value)).

Definition Time (p : nat) (name : string) (duration : Z) : M unit :=
  do histogram <- getOrCreateHistogram p name ;;
  let seconds := Float64.div (Float64.of_int duration) Float64.c1e9 in
  call histogram (Observe seconds).

(** [Timing]: [f] is the function that is measured, with whatever it
    does to the world, and [elapsed] what the stopwatch reads once [f]
    has returned, in nanoseconds. *)
Definition Timing (p : nat) (name : string) (f : M unit) (elapsed : Z) : M unit :=
  run f ;;
  Time p name elapsed.


(** [strings.HasSuffix(s, ".")]. *)
Fixpoint hasSuffixDot (s : string) : bool :=
  match s with
  | EmptyString => false
  | String c EmptyString => Char.is_dot c
  | String _ rest => hasSuffixDot rest
  end.

Definition WithPrefix (p : nat) (prefix : string) : M nat :=
  do s <- load p ;;                                   (* mapLock held throughout *)
  match prefixes s !! prefix with
  | Some (Some child) => ret child
  | _ =>
      let mPrefix := if negb (hasSuffixDot prefix) then prefix ++ "." else prefix in
      do child <- newPrometheus mPrefix (namespace s) (subsystem s)
                             (registry_ptr s) (buckets s) ;;
      run modify p (set_prefix prefix child) ;;
      ret child
  end.

(** The struct a miss of [WithPrefix] puts on the heap for the key
    [key] under the parent [s]. *)
Definition child_store (key : string) (s : Prometheus) : Prometheus :=
  {| prefix := if negb (hasSuffixDot key) then key ++ "." else key;
     namespace := namespace s; subsystem := subsystem s;
     registry_ptr := registry_ptr s;
     counters := ∅; gauges := ∅; histograms := ∅;
     buckets := buckets s; prefixes := ∅ |}.

Definition AppendSuffix (p : nat) (suffix : string) : M nat :=
  do s <- load p ;;
  WithPrefix p (Store.prefix s ++ suffix).

(** The world right after the slow path has built its handle and
    offered it to the registry [reg] of the store [s]. *)
Definition offered (k : Kind) (s : Prometheus) (name : string) (reg : registry)
    (w : World) : World :=
  let o := new_opts k s (buildMetricName s name) in
  set_registries
    (<[registry_ptr s := fst (Register reg (next_collector w) k o)]> (registries w))
    (add_created k o w).

(** The answer of the registry [reg] to that offer. *)
Definition answer (k : Kind) (s : Prometheus) (name : string) (reg : registry)
    (w : World) : option error :=
  snd (Register reg (next_collector w) k (new_opts k s (buildMetricName s name))).


(** The prefix cache of every store on the heap points to distinct
    stores on the heap. *)
Definition prefixes_ok (w : World) : Prop :=
  forall p s, stores w !! p = Some s ->
    (forall key child, prefixes s !! key = Some (Some child) ->
       child < length (stores w)) /\
    (forall key1 key2 child,
       prefixes s !! key1 = Some (Some child) ->
       prefixes s !! key2 = Some (Some child) -> key1 = key2).

(** [a] is a store on the heap, and it is the store that the parent
    [p] holds in its cache under the key [q]. *)
Definition cached_store (p : nat) (q : string) (a : nat) (w : World) : Prop :=
  is_Some (stores w !! a) /\
  exists s, stores w !! p = Some s /\ prefixes s !! q = Some (Some a).

End WithBackend.

(** The increment as the specification words it: one without values,
    else the sum of the values. *)
Definition spec_increment (values : list Z) : Z :=
  match values with
  | [] => 1%Z
  | _ => fold_right Z.add 0%Z values
  end.

End Store.

(** ** Two registries to run the store against *)

(** A registry that takes every collector. *)
Definition accepting_backend : Backend :=
  {| registry := unit;
     Register := fun r _ _ _ => (r, None);
     implements := fun _ _ => true |}.

(** A registry that holds [existing] under every identity, so that
    every registration meets [AlreadyRegisteredError]; [existing] passes
    the type assertions listed by [ok]. *)
Definition conflict_backend (existing : collector) (ok : Kind -> bool) : Backend :=
  {| registry := unit;
     Register := fun r h _ _ => (r, Some (AlreadyRegisteredError existing h));
     implements := fun _ k => ok k |}.

(** A registry holding collector 7, which is a counter and nothing
    else. *)
Definition counter7_backend : Backend :=
  conflict_backend 7 (fun k => match k with KCounter => true | _ => false end).



(** A root store as [Dial] builds it, on registry 0, alone on the heap. *)
Definition root_store : Store.Prometheus :=
  {| Store.prefix := ""; Store.namespace := ""; Store.subsystem := "";
     Store.registry_ptr := 0;
     Store.counters := ∅; Store.gauges := ∅; Store.histograms := ∅;
     Store.buckets := []; Store.prefixes := ∅ |}.

Definition root_world (B : Backend) (reg : @registry B) : @Store.World B :=
  {| Store.stores := [root_store];
     Store.registries := {[ 0 := reg ]};
     Store.created := ∅;
     Store.next_collector := 0;
     Store.log := [];
     Store.calls := [] |}.

(** The same with buckets that [HistogramBuckets] may have set: the
    boundary 1 twice. *)
Definition flat_buckets : list spec_float := [Float64.of_int 1; Float64.of_int 1].

Definition flat_store : Store.Prometheus :=
  {| Store.prefix := ""; Store.namespace := ""; Store.subsystem := "";
     Store.registry_ptr := 0;
     Store.counters := ∅; Store.gauges := ∅; Store.histograms := ∅;
     Store.buckets := flat_buckets; Store.prefixes := ∅ |}.

Definition flat_world (B : Backend) (reg : @registry B) : @Store.World B :=
  {| Store.stores := [flat_store];
     Store.registries := {[ 0 := reg ]};
     Store.created := ∅;
     Store.next_collector := 0;
     Store.log := [];
     Store.calls := [] |}.

(** ** The exposition server *)

Module Server.

(** The fields of [http.Server] the package sets, and the shutdown
    flag the library keeps.  [Addr] holds the port of [":<port>"],
    [Handler] the patterns registered on the mux, the timeouts are in
    seconds. *)
Record HttpServer := {
  Addr : Z;
  Handler : list string;
  ReadTimeout : Z;
  WriteTimeout : Z;
  IdleTimeout : Z;
  inShutdown : bool
}.

Record server := {
  httpServer : option HttpServer;
  port : Z;
  path : string;
  registry : nat;
  stopChan_closed : bool
}.

(** A goroutine started by [start], by how far it has come: not yet
    scheduled; past the shutdown check at the head of
    [ListenAndServe] and about to bind; blocked in [Serve] on a bound
    listener. *)
Inductive Goroutine :=
| Spawned (s : nat)
| Checked (s : nat)
| Serving (s : nat).

(** The package variables [currentServer] (a [*server], [None] is
    nil), the heap of servers, the goroutines and the log. *)
Record State := {
  servers : list server;
  currentServer : option nat;
  goroutines : list Goroutine;
  log : list LogEntry
}.

(** The network and [net/http], which are not part of this package:
    the error, if any, of binding a port when [net.Listen] gets to
    run; the error, if any, of [Shutdown] within its five seconds; and
    which non-empty patterns [http.ServeMux] takes, a matter of the
    version of the library. *)
Class Net := {
  listen : Z -> option error;
  shutdown : Z -> option error;
  valid_pattern : string -> bool
}.

Definition set_server (a : nat) (s : server) (st : State) : State :=
  {| servers := <[a := s]> (servers st);
     currentServer := currentServer st;
     goroutines := goroutines st;
     log := log st |}.

Definition set_current (c : option nat) (st : State) : State :=
  {| servers := servers st; currentServer := c;
     goroutines := goroutines st; log := log st |}.

Definition set_goroutines (gs : list Goroutine) (st : State) : State :=
  {| servers := servers st; currentServer := currentServer st;
     goroutines := gs; log := log st |}.

Definition add_log (e : LogEntry) (st : State) : State :=
  {| servers := servers st; currentServer := currentServer st;
     goroutines := goroutines st; log := log st ++ [e] |}.

(** [newServer]: a fresh struct on the heap. *)
Definition newServer (port : Z) (path : string) (registry : nat) (st : State)
    : nat * State :=
  (length (servers st),
   {| servers := servers st ++ [{| httpServer := None; port := port; path := path;
                                   registry := registry; stopChan_closed := false |}];
      currentServer := currentServer st;
      goroutines := goroutines st;
      log := log st |}).

Definition is_spawned (a : nat) (g : Goroutine) : bool :=
  match g with Spawned b => Nat.eqb a b | _ => false end.

Definition is_checked (a : nat) (g : Goroutine) : bool :=
  match g with Checked b => Nat.eqb a b | _ => false end.

Definition is_serving (a : nat) (g : Goroutine) : bool :=
  match g with Serving b => Nat.eqb a b | _ => false end.

Definition of_server (a : nat) (g : Goroutine) : bool :=
  match g with Spawned b | Checked b | Serving b => Nat.eqb a b end.

(** The goroutines without those that [f] picks. *)
Definition drop (f : Goroutine -> bool) (st : State) : State :=
  set_goroutines (List.filter (fun g => negb (f g)) (goroutines st)) st.

Section WithNet.
Context `{N : Net}.

(** [mux.Handle(pattern, handler)] and [mux.HandleFunc(pattern, f)]
    on a mux that holds the patterns [mux]: a panic, [None], on the
    empty pattern, on a pattern the library finds invalid and on a
    pattern that is registered already. *)
Definition mux_handle (pattern : string) (mux : list string) : option (list string) :=
  if negb (String.eqb pattern "") && valid_pattern pattern
     && negb (existsb (String.eqb pattern) mux)
  then Some (mux ++ [pattern])%list
  else None.

(** [server.start]: builds the mux and the [http.Server], starts
    the serving goroutine and returns nil.  [None] is a panic: of the
    mux, or because the receiver is not on the heap. *)
Definition start (a : nat) (st : State) : option (option error * State) :=
  match servers st !! a with
  | None => None
  | Some s =>
      match mux_handle (path s) [] with
      | None => None
      | Some mux =>
          match mux_handle "/health" mux with
          | None => None
          | Some mux =>
              let h := {| Addr := port s;
                          Handler := mux;
                          ReadTimeout := 5; WriteTimeout := 10; IdleTimeout := 15;
                          inShutdown := false |} in
              let s' := {| httpServer := Some h; port := port s; path := path s;
                           registry := registry s;
                           stopChan_closed := stopChan_closed s |} in
              let st := set_server a s' st in
              let st := set_goroutines (goroutines st ++ [Spawned a]) st in (* go func() *)
              Some (None, st)
          end
      end
  end.

(** The goroutine of [start], first part: it logs that it starts and
    enters [ListenAndServe], which returns [http.ErrServerClosed] at
    once when the server is shutting down; that error is not logged. *)
Definition enter (a : nat) (st : State) : State :=
  match servers st !! a with
  | None => st
  | Some s =>
      let st := add_log (LogInfo [lib_field; FInt "port" (port s); FStr "path" (path s)]
                                 "starting HTTP server") st in
      match httpServer s with
      | None => st
      | Some h =>
          if inShutdown h then st
          else set_goroutines (goroutines st ++ [Checked a]) st
      end
  end.

(** The goroutine of [start], second part: [net.Listen]; its error is
    returned by [ListenAndServe] and logged; on a bound listener
    [Serve] gives up at once, with [http.ErrServerClosed], when the
    server is shutting down by then, and blocks otherwise. *)
Definition bind (a : nat) (st : State) : State :=
  match servers st !! a with
  | None => st
  | Some s =>
      match httpServer s with
      | None => st
      | Some h =>
          match listen (Addr h) with
          | Some err => add_log (LogError [lib_field; FInt "port" (port s)] err) st
          | None =>
              if inShutdown h then st
              else set_goroutines (goroutines st ++ [Serving a]) st
          end
      end
  end.

(** One scheduling step of the goroutine of server [a]: its first
    part when it has not run yet, its second part when it is about to
    bind, nothing otherwise. *)
Definition schedule (a : nat) (st : State) : State :=
  if existsb (is_spawned a) (goroutines st) then enter a (drop (is_spawned a) st)
  else if existsb (is_checked a) (goroutines st) then bind a (drop (is_checked a) st)
  else st.

(** [s.wg.Wait()] after a shutdown: the goroutine of [a] runs
    whatever is left of its body and ends. *)
Definition wait (a : nat) (st : State) : State :=
  drop (of_server a) (schedule a (schedule a st)).

(** [server.stop]; [None] is a panic (closing the closed
    [stopChan], or a receiver that is not on the heap).  [Shutdown]
    sets the flag, closes the listeners and waits for [Serve] to
    return before it does anything that can fail, so a goroutine
    blocked in [Serve] ends in either case. *)
Definition stop (a : nat) (st : State) : option (option error * State) :=
  match servers st !! a with
  | None => None
  | Some s =>
      if stopChan_closed s then None
      else
        match httpServer s with
        | None =>
            Some (None,
                  set_server a {| httpServer := None; port := port s; path := path s;
                                  registry := registry s; stopChan_closed := true |} st)
        | Some h =>
            let h' := {| Addr := Addr h; Handler := Handler h;
                         ReadTimeout := ReadTimeout h; WriteTimeout := WriteTimeout h;
                         IdleTimeout := IdleTimeout h; inShutdown := true |} in
            let st := set_server a {| httpServer := Some h'; port := port s;
                                      path := path s; registry := registry s;
                                      stopChan_closed := true |} st in
            let st := drop (is_serving a) st in
            match shutdown (Addr h) with
            | Some err => Some (Some err, st)
            | None => Some (None, wait a st)
            end
        end
  end.

Definition startServer (port : Z) (path : string) (registry : nat) (st : State)
    : option (option error * State) :=
  match (match currentServer st with
         | Some cur =>
             match stop cur st with
             | Some (_, st') => Some st'
             | None => None
             end
         | None => Some st
         end) with
  | None => None
  | Some st =>
      let '(a, st) := newServer port path registry st in
      let st := set_current (Some a) st in
      start a st
  end.

Definition stopServer (st : State) : option (option error * State) :=
  match currentServer st with
  | None => Some (None, st)
  | Some cur =>
      match stop cur st with
      | Some (err, st') => Some (err, set_current None st')
      | None => None
      end
  end.

(** [Close]. *)
Definition Close : State -> option (option error * State) := stopServer.

(** The paths on which [start] gets past the mux: not empty, valid,
    and not the pattern of the liveness handler. *)
Definition startable (path : string) : bool :=
  match mux_handle path [] with
  | Some mux =>
      match mux_handle "/health" mux with
      | Some _ => true
      | None => false
      end
  | None => false
  end.

End WithNet.

(** The server [currentServer] points to, if any, is on the heap and
    has not been stopped; so it is from the start on, as [stopServer]
    resets the variable and [startServer] replaces it. *)
Definition current_open (st : State) : Prop :=
  forall cur, currentServer st = Some cur ->
    exists s, servers st !! cur = Some s /\ stopChan_closed s = false.

(** The [http.Server] that [start] builds for a port and a path. *)
Definition built (port : Z) (path : string) : HttpServer :=
  {| Addr := port; Handler := [path; "/health"];
     ReadTimeout := 5; WriteTimeout := 10; IdleTimeout := 15;
     inShutdown := false |}.

(** The state right after a new server for [port] and [path] has
    been made current and started on [st]. *)
Definition started (port : Z) (path : string) (registry : nat) (st : State) : State :=
  {| servers := servers st ++
                [{| httpServer := Some (built port path); port := port;
                    path := path; registry := registry;
                    stopChan_closed := false |}];
     currentServer := Some (length (servers st));
     goroutines := goroutines st ++ [Spawned (length (servers st))];
     log := log st |}.

(** The state of a process that has not started a server yet. *)
Definition initial : State :=
  {| servers := []; currentServer := None; goroutines := []; log := [] |}.

(** Patterns that start with a slash, which every version of the
    mux takes as paths when they hold no braces. *)
Definition slash_pattern (p : string) : bool :=
  match p with
  | String c _ => Ascii.eqb c "/"
  | EmptyString => false
  end.

(** A network on which no port can be bound. *)
Definition port_in_use : error := OtherError "bind: address already in use".
Definition refusing_net : Net :=
  {| listen := fun _ => Some port_in_use; shutdown := fun _ => None;
     valid_pattern := slash_pattern |}.

End Server.

(** ** Dialling with retries *)

Module Dialing.

Inductive Event :=
| EvDial (res : option error)     (* a call of [Dial] and its result *)
| EvSleep (ns : Z)                (* [time.Sleep] *)
| EvFatal (err : error).          (* [log.Fatal]: the process exits *)

Inductive Outcome :=
| Returned                        (* [MustDial] returned to its caller *)
| Exited                          (* the process was terminated *)
| OutOfFuel.

(** [time.Second], in nanoseconds. *)
Definition Second : Z := 1000000000.

Section WithDial.
(** The result of the [n]-th call of [Dial] (from 0), as the
    environment decides it. *)
Variable Dial : nat -> option error.

(** The loop at the label [again]: [r] is the program variable, [n]
    the number of calls of [Dial] made before.  The result is how the
    loop ends and what it did, oldest event first. *)
Fixpoint again (fuel : nat) (r : Z) (n : nat) : Outcome * list Event :=
  match fuel with
  | O => (OutOfFuel, [])
  | S fuel' =>
      match Dial n with
      | None => (Returned, [EvDial None])
      | Some err =>
          if (10 <? r)%Z then (Exited, [EvDial (Some err); EvFatal err])
          else
            let '(o, tr) := again fuel' (GoInt.add r 1) (S n) in
            (o, EvDial (Some err) :: EvSleep Second :: tr)
      end
  end.

Definition MustDial (fuel : nat) : Outcome * list Event := again fuel 0 0.

End WithDial.

Definition is_dial (e : Event) : bool :=
  match e with EvDial _ => true | _ => false end.
Definition is_sleep (e : Event) : bool :=
  match e with EvSleep _ => true | _ => false end.
Definition is_fatal (e : Event) : bool :=
  match e with EvFatal _ => true | _ => false end.

(** Calls of [Dial] in a trace, and those after the first. *)
Definition attempts (tr : list Event) : nat := length (List.filter is_dial tr).
Definition additional_attempts (tr : list Event) : nat := attempts tr - 1.
Definition sleeps (tr : list Event) : nat := length (List.filter is_sleep tr).
Definition fatals (tr : list Event) : nat := length (List.filter is_fatal tr).

(** Every pause in the trace lasts one second. *)
Definition pauses_one_second (tr : list Event) : Prop :=
  forall ns, In (EvSleep ns) tr -> ns = Second.

(** A [Dial] that fails every time. *)
Definition never (_ : nat) : option error := Some (OtherError "listen failed").

End Dialing.

(** Kinds can be told apart. *)
#[global] Instance Kind_eq_dec : EqDecision Kind.
Proof. solve_decision. Defined.

(** ** Sequences of server operations *)

Module Lifecycle.
Import Server.

(** What can happen to the package's server state: a call of
    [startServer], a call of [stopServer] (that is, [Close]), or the
    scheduler running the goroutine of one server. *)
Inductive Op :=
| OpStart (port : Z) (path : string) (registry : nat)
| OpStop
| OpSchedule (a : nat).

Section WithNet.
Context `{N : Net}.

Definition step (op : Op) (st : State) : option (option error * State) :=
  match op with
  | OpStart port path registry => startServer port path registry st
  | OpStop => stopServer st
  | OpSchedule a => Some (None, schedule a st)
  end.

(** The operations in order, with what each returned; [None] when one
    of them panics. *)
Fixpoint run (ops : list Op) (st : State) : option (list (option error) * State) :=
  match ops with
  | [] => Some ([], st)
  | op :: rest =>
      match step op st with
      | None => None
      | Some (r, st') =>
          match run rest st' with
          | None => None
          | Some (rs, st'') => Some (r :: rs, st'')
          end
      end
  end.

(** The calls of [startServer] in a sequence of operations are all
    on paths that the mux takes. *)
Definition starts_ok (ops : list Op) : Prop :=
  forall prt pth rg, In (OpStart prt pth rg) ops -> startable pth = true.

End WithNet.

(** No goroutine of the server [a] is left. *)
Definition no_goroutine_of (a : nat) (st : State) : Prop :=
  forall g, In g (goroutines st) -> of_server a g = false.

Definition is_log_error (e : LogEntry) : bool :=
  match e with LogError _ _ => true | LogInfo _ _ => false end.

(** A network on which every port can be bound and every shutdown
    ends in time. *)
Definition open_net : Net :=
  {| listen := fun _ => None; shutdown := fun _ => None;
     valid_pattern := slash_pattern |}.

(** A network on which ports can be bound but no shutdown ends in
    time. *)
Definition deadline : error := OtherError "context deadline exceeded".
Definition stuck_net : Net :=
  {| listen := fun _ => None; shutdown := fun _ => Some deadline;
     valid_pattern := slash_pattern |}.

End Lifecycle.

(** ** Options *)

(** The state of a registry, under a name that the field [registry] of
    the options does not hide. *)
Local Abbreviation registry_state := (@registry _) (only parsing).

Module Options.

Definition DefaultHTTPPort : Z := 2112.
Definition DefaultMetricsPath : string := "/metrics".

Definition staticPrometheusEnvVars : list string :=
  ["SVCKIT_METRIC_PROMETHEUS_PORT"; "PROMETHEUS_PORT"].

(** The struct [options]; a nil slice and a nil pointer are [None]. *)
Record options := {
  prefix : string;
  port : Z;
  path : string;
  namespace : string;
  subsystem : string;
  buckets : option (list spec_float);
  registry : option nat
}.

Definition set_port (v : Z) (o : options) : options :=
  {| prefix := prefix o; port := v; path := path o; namespace := namespace o;
     subsystem := subsystem o; buckets := buckets o; registry := registry o |}.
Definition set_path (v : string) (o : options) : options :=
  {| prefix := prefix o; port := port o; path := v; namespace := namespace o;
     subsystem := subsystem o; buckets := buckets o; registry := registry o |}.
Definition set_prefix (v : string) (o : options) : options :=
  {| prefix := v; port := port o; path := path o; namespace := namespace o;
     subsystem := subsystem o; buckets := buckets o; registry := registry o |}.
Definition set_namespace (v : string) (o : options) : options :=
  {| prefix := prefix o; port := port o; path := path o; namespace := v;
     subsystem := subsystem o; buckets := buckets o; registry := registry o |}.
Definition set_subsystem (v : string) (o : options) : options :=
  {| prefix := prefix o; port := port o; path := path o; namespace := namespace o;
     subsystem := v; buckets := buckets o; registry := registry o |}.
Definition set_buckets (v : option (list spec_float)) (o : options) : options :=
  {| prefix := prefix o; port := port o; path := path o; namespace := namespace o;
     subsystem := subsystem o; buckets := v; registry := registry o |}.
Definition set_registry (v : option nat) (o : options) : options :=
  {| prefix := prefix o; port := port o; path := path o; namespace := namespace o;
     subsystem := subsystem o; buckets := buckets o; registry := v |}.

(** The type [Option] and its constructors. *)
Definition Option : Type := options -> options.

Definition HTTPPort (port : Z) : Option := set_port port.
Definition MetricsPath (path : string) : Option := set_path path.
Definition MetricPrefix (prefix : string) : Option := set_prefix prefix.
Definition Namespace (namespace : string) : Option := set_namespace namespace.
Definition Subsystem (subsystem : string) : Option := set_subsystem subsystem.
Definition HistogramBuckets (buckets : option (list spec_float)) : Option :=
  set_buckets buckets.
Definition WithRegistry (registry : option nat) : Option := set_registry registry.

(** What the package reads from outside: the process environment
    ([os.Getenv], [env.AppName], [env.InstanceId]) and
    [strconv.Atoi], [None] being its error. *)
Class Env := {
  Getenv : string -> string;
  Atoi : string -> option Z;
  AppName : string;
  InstanceId : string
}.

Definition nonempty (s : string) : bool := negb (String.eqb s "").

Section WithEnv.
Context `{B : Backend} `{E : Env}.

(** The package variable [DefaultHistogramBuckets], a non-nil slice
    whose contents differ between the copies of the file, and the state
    of the registry that [promclient.NewRegistry] returns. *)
Variable DefaultHistogramBuckets : list spec_float.
Variable NewRegistry : registry_state.

(** The loop of [getPortFromEnv] over the variables still to try. *)
Fixpoint port_from (vars : list string) : Z :=
  match vars with
  | [] => 0%Z
  | envVar :: rest =>
      let portStr := Getenv envVar in
      if nonempty portStr then
        match Atoi portStr with
        | Some port => if (0 <? port)%Z then port else port_from rest
        | None => port_from rest
        end
      else port_from rest
  end.

Definition getPortFromEnv : Z := port_from staticPrometheusEnvVars.

(** The port that one variable of the environment gives, if it gives
    one: its value read as a decimal number, when that is positive. *)
Definition port_of (envVar : string) : option Z :=
  if nonempty (Getenv envVar) then
    match Atoi (Getenv envVar) with
    | Some port => if (0 <? port)%Z then Some port else None
    | None => None
    end
  else None.

Definition getDefaultPrefix : string :=
  let appName := AppName in
  let instanceID := InstanceId in
  if nonempty appName && nonempty instanceID then
    appName ++ "." ++ instanceID ++ "."
  else if nonempty appName then appName ++ "."
  else "".

(** [Validate], together with the heap of registries it may add to.
    The error it returns is always nil. *)
Definition Validate (o : options) (w : Store.World)
    : option error * options * Store.World :=
  let o :=
    if (port o =? 0)%Z then
      let o := set_port getPortFromEnv o in
      if (port o =? 0)%Z then set_port DefaultHTTPPort o else o
    else o in
  let o := if String.eqb (path o) "" then set_path DefaultMetricsPath o else o in
  let o :=
    match buckets o with
    | None => set_buckets (Some DefaultHistogramBuckets) o
    | Some _ => o
    end in
  let '(o, w) :=
    match registry o with
    | None =>
        let r := fresh (dom (Store.registries w)) in
        (set_registry (Some r) o,
         Store.set_registries (<[r := NewRegistry]> (Store.registries w)) w)
    | Some _ => (o, w)
    end in
  let o := if String.eqb (prefix o) "" then set_prefix getDefaultPrefix o else o in
  (None, o, w).

(** The options [Dial] starts from, and the loop that applies the
    options it was given. *)
Definition dial_defaults : options :=
  {| prefix := getDefaultPrefix; port := 0; path := DefaultMetricsPath;
     namespace := ""; subsystem := "";
     buckets := Some DefaultHistogramBuckets; registry := None |}.

Definition apply_options (opts : list Option) (o : options) : options :=
  fold_left (fun o optFn => optFn o) opts o.

End WithEnv.

(** A reading of decimal integers: an optional sign and at least one
    digit. *)
Fixpoint digits_value (acc : Z) (s : string) : option Z :=
  match s with
  | EmptyString => Some acc
  | String c rest =>
      if Char.is_digit c
      then digits_value (acc * 10 + Z.of_N (Char.code c) - 48) rest
      else None
  end.

(** The number a signed decimal text stands for. *)
Definition signed_value (s : string) : option Z :=
  match s with
  | EmptyString => None
  | String c rest =>
      if Ascii.eqb c "-" then
        match rest with
        | EmptyString => None
        | _ => option_map Z.opp (digits_value 0 rest)
        end
      else if Ascii.eqb c "+" then
        match rest with
        | EmptyString => None
        | _ => digits_value 0 rest
        end
      else digits_value 0 s
  end.

(** [strconv.Atoi]: an error on text that is not a signed decimal
    number and on a number outside [int]. *)
Definition atoi (s : string) : option Z :=
  match signed_value s with
  | Some v =>
      if ((GoInt.min_int <=? v) && (v <=? GoInt.max_int))%Z then Some v else None
  | None => None
  end.

(** An environment that names a port twice, the first time badly. *)
Definition sample_env : Env :=
  {| Getenv := fun v =>
       if String.eqb v "SVCKIT_METRIC_PROMETHEUS_PORT" then "-1"
       else if String.eqb v "PROMETHEUS_PORT" then "9100"
       else "";
     Atoi := atoi;
     AppName := "billing";
     InstanceId := "" |}.

End Options.

(** ** Dial *)

Module Driver.
Local Abbreviation registry_state := (@registry _) (only parsing).
Import Options.

Section WithProcess.
Context `{B : Backend} `{E : Env} `{N : Server.Net}.

(** The process as [Dial] finds it: the heaps of the stores, the state
    of the server, the driver that [metric.Set] has installed last (a
    [*Prometheus], [None] before the first [Dial]) and the log of the
    package. *)
Record Process := {
  world : Store.World;
  server : Server.State;
  driver : option nat;
  log : list LogEntry
}.

Variable DefaultHistogramBuckets : list spec_float.
Variable NewRegistry : registry_state.

(** [env.InDev()]. *)
Variable InDev : bool.

(** [Dial]; [None] is a panic.  [Validate] has set the registry by
    the time it is used; the branch for a nil registry is there for
    the type of the field only, and no run takes it. *)
Definition Dial (opts : list Option) (P : Process) : option (option error * Process) :=
  let o := apply_options opts (dial_defaults DefaultHistogramBuckets) in
  let '(err, o, w) := Validate DefaultHistogramBuckets NewRegistry o (world P) in
  match err with
  | Some e =>
      Some (Some e,
            {| world := w; server := server P; driver := driver P;
               log := if InDev then log P else (log P ++ [LogError [lib_field] e])%list |})
  | None =>
      match registry o with
      | None => None
      | Some r =>
          match Store.newPrometheus "" (namespace o) (subsystem o) r
                                    (default [] (buckets o)) w with
          | None => None
          | Some (prom, w) =>
              match Store.WithPrefix prom (prefix o) w with
              | None => None
              | Some (d, w) =>                            (* metric.Set(d) *)
                  match Server.startServer (port o) (path o) r (server P) with
                  | None => None
                  | Some (Some e, srv) =>
                      Some (Some e,
                            {| world := w; server := srv; driver := Some d;
                               log := (log P ++ [LogError [lib_field] e])%list |})
                  | Some (None, srv) =>
                      Some (None,
                            {| world := w; server := srv; driver := Some d;
                               log := (log P ++ [LogInfo [lib_field;
                                                          FInt "port" (port o);
                                                          FStr "path" (path o);
                                                          FStr "prefix" (prefix o)]
                                                         "started"])%list |})
                  end
              end
          end
      end
  end.

(** [MustDial] over this [Dial]: the loop at the label [again], with
    the process that each call of [Dial] leaves. *)
Fixpoint again (fuel : nat) (r : Z) (opts : list Option) (P : Process)
    : option (Dialing.Outcome * list Dialing.Event * Process) :=
  match fuel with
  | O => Some (Dialing.OutOfFuel, [], P)
  | S fuel' =>
      match Dial opts P with
      | None => None
      | Some (None, P') => Some (Dialing.Returned, [Dialing.EvDial None], P')
      | Some (Some err, P') =>
          if (10 <? r)%Z
          then Some (Dialing.Exited, [Dialing.EvDial (Some err); Dialing.EvFatal err], P')
          else
            match again fuel' (GoInt.add r 1) opts P' with
            | None => None
            | Some (o, tr, P'') =>
                Some (o, Dialing.EvDial (Some err) :: Dialing.EvSleep Dialing.Second :: tr,
                      P'')
            end
      end
  end.

Definition MustDial (fuel : nat) (opts : list Option) (P : Process)
    : option (Dialing.Outcome * list Dialing.Event * Process) :=
  again fuel 0 opts P.

End WithProcess.

(** A process that has not dialled yet, on the heaps [w]. *)
Definition fresh_process `{B : Backend} (w : Store.World) : Process :=
  {| world := w; server := Server.initial; driver := None; log := [] |}.

End Driver.

(** ** Sample inputs *)

(** A [Dial] that fails twice and then succeeds. *)
Definition third_time (n : nat) : option error :=
  if (n <? 2)%nat then Some (OtherError "not yet") else None.

(** A measured function that does nothing. *)
Definition idle `{B : Backend} : Store.M unit := Store.ret tt.

(** The state after a first server has been started. *)
Definition one_server : Server.State := Server.started 2112 "/metrics" 0 Server.initial.

(* ===================================================================== *)
(** * Part II. Properties                                                 *)
(* ===================================================================== *)

(** ** The name sanitizer on the inputs of the package's own test *)

Example sanitize_simple : sanitizeName "simple" = "simple".
Proof. reflexivity. Qed.
Example sanitize_dots : sanitizeName "http.requests.total" = "http_requests_total".
Proof. reflexivity. Qed.
Example sanitize_dashes : sanitizeName "with-dashes" = "with_dashes".
Proof. reflexivity. Qed.
Example sanitize_digit : sanitizeName "123start" = "_123start".
Proof. reflexivity. Qed.

(** A three-byte rune becomes one underscore, a stray continuation byte
    becomes one underscore of its own. *)
Example sanitize_euro :
  sanitizeName (String (ascii_of_nat 226) (String (ascii_of_nat 130)
               (String (ascii_of_nat 172) "x"))) = "_x".
Proof. reflexivity. Qed.
Example sanitize_stray :
  sanitizeName (String (ascii_of_nat 226) (String (ascii_of_nat 130) "x")) = "__x".
Proof. reflexivity. Qed.

(** ** Character classes *)

Section CharFacts.

Lemma underscore_name_char : Char.is_name_char "_"%char = true.
Proof. reflexivity. Qed.

Lemma underscore_name_start : Char.is_name_start "_"%char = true.
Proof. reflexivity. Qed.

Lemma name_start_name_char c :
  Char.is_name_start c = true -> Char.is_name_char c = true.
Proof.
  unfold Char.is_name_start, Char.is_name_char.
  destruct (Char.is_lower c), (Char.is_upper c), (Char.is_underscore c),
    (Char.is_digit c); simpl; auto; discriminate.
Qed.

Lemma name_char_not_dot c :
  Char.is_name_char c = true -> Char.is_dot c = false.
Proof.
  unfold Char.is_name_char, Char.is_dot, Char.is_lower, Char.is_upper,
    Char.is_digit, Char.is_underscore, Char.is_colon, Char.between.
  generalize (Char.code c); intros n H.
  apply N.eqb_neq; intros ->. vm_compute in H. discriminate.
Qed.

Lemma name_char_ascii c :
  Char.is_name_char c = true -> Char.is_ascii c = true.
Proof.
  unfold Char.is_name_char, Char.is_ascii, Char.is_lower, Char.is_upper,
    Char.is_digit, Char.is_underscore, Char.is_colon, Char.between.
  generalize (Char.code c); intros n H.
  apply N.ltb_lt.
  repeat (apply orb_true_iff in H; destruct H as [H | H]);
    repeat (apply andb_true_iff in H; destruct H as [? H]);
    repeat match goal with
           | E : (_ <=? _)%N = true |- _ => apply N.leb_le in E
           | E : (_ =? _)%N = true |- _ => apply N.eqb_eq in E
           end; lia.
Qed.

End CharFacts.

(** ** What the sanitizer produces *)

Section Sanitizer.

Lemma replaceInvalidFrom_name_chars name :
  forall skip, all_name_chars (replaceInvalidFrom skip name) = true.
Proof.
  induction name as [| c rest IH]; intros skip; simpl; [reflexivity |].
  destruct skip as [| k]; [| apply IH].
  destruct (Char.is_ascii c); simpl.
  - rewrite IH, andb_true_r.
    destruct (Char.is_name_char c) eqn:E; [exact E | reflexivity].
  - rewrite IH. reflexivity.
Qed.

Lemma replaceDots_nonempty name : name <> "" -> replaceDots name <> "".
Proof. destruct name; simpl; congruence. Qed.

Lemma replaceInvalid_nonempty name : name <> "" -> replaceInvalid name <> "".
Proof.
  unfold replaceInvalid.
  destruct name as [| c rest]; simpl; [congruence |].
  destruct (Char.is_ascii c); discriminate.
Qed.

Lemma replaceDots_fixed s : all_name_chars s = true -> replaceDots s = s.
Proof.
  induction s as [| c rest IH]; simpl; [reflexivity |].
  intros [Hc Hrest]%andb_true_iff.
  rewrite (name_char_not_dot c Hc), (IH Hrest). reflexivity.
Qed.

Lemma replaceInvalid_fixed s : all_name_chars s = true -> replaceInvalid s = s.
Proof.
  unfold replaceInvalid.
  induction s as [| c rest IH]; simpl; [reflexivity |].
  intros [Hc Hrest]%andb_true_iff.
  rewrite (name_char_ascii c Hc), Hc, (IH Hrest). reflexivity.
Qed.

(** A string of the character class that does not start badly is
    left alone. *)
Lemma sanitizeName_fixed s :
  all_name_chars s = true -> startsWithInvalid s = false -> sanitizeName s = s.
Proof.
  intros Hall Hstart. unfold sanitizeName.
  rewrite (replaceDots_fixed s Hall), (replaceInvalid_fixed s Hall), Hstart.
  reflexivity.
Qed.

(** The result is over the character class and never starts badly. *)
Lemma sanitizeName_shape s :
  all_name_chars (sanitizeName s) = true /\
  startsWithInvalid (sanitizeName s) = false.
Proof.
  unfold sanitizeName.
  pose proof (replaceInvalidFrom_name_chars (replaceDots s) 0) as Hall.
  fold (replaceInvalid (replaceDots s)) in Hall.
  destruct (startsWithInvalid (replaceInvalid (replaceDots s))) eqn:E.
  - split; [simpl; now rewrite Hall | reflexivity].
  - split; assumption.
Qed.

Lemma sanitizeName_nonempty s : s <> "" -> sanitizeName s <> "".
Proof.
  intros Hs. unfold sanitizeName.
  destruct (startsWithInvalid _); [discriminate |].
  now apply replaceInvalid_nonempty, replaceDots_nonempty.
Qed.

(** C2 as stated fails on the empty name: the result is empty, and
    the grammar [^[A-Za-z_][A-Za-z0-9_:]*$] asks for one character at
    least. *)
Lemma sanitizeName_empty_not_identifier :
  ~ (forall s, matches_identifier (sanitizeName s) = true).
Proof. intros H. specialize (H ""). discriminate H. Qed.

(** C2, amended: for every non-empty string [s], [sanitizeName s]
    matches [^[A-Za-z_][A-Za-z0-9_:]*$]: it starts with a letter or an
    underscore and holds only letters, digits, underscores and
    colons. *)
Theorem sanitizeName_matches_identifier s :
  s <> "" -> matches_identifier (sanitizeName s) = true.
Proof.
  intros Hs.
  destruct (sanitizeName_shape s) as [Hall Hstart].
  pose proof (sanitizeName_nonempty s Hs) as Hne.
  destruct (sanitizeName s) as [| c rest]; [congruence |].
  simpl in *. apply andb_true_iff in Hall as [_ Hrest].
  rewrite Hrest. now apply negb_false_iff in Hstart as ->.
Qed.

Lemma sanitizeName_matches_identifier_witness :
  "with-dashes" <> "" /\ matches_identifier (sanitizeName "with-dashes") = true.
Proof.
  split; [discriminate |].
  apply (sanitizeName_matches_identifier "with-dashes"). discriminate.
Defined.

(** C8: the sanitizer is idempotent,
    [sanitizeName (sanitizeName s) = sanitizeName s] for every [s]. *)
Theorem sanitizeName_idempotent s :
  sanitizeName (sanitizeName s) = sanitizeName s.
Proof.
  destruct (sanitizeName_shape s) as [Hall Hstart].
  now apply sanitizeName_fixed.
Qed.

(** C9: the empty string is a fixed point of the sanitizer, no
    underscore is put in front; so the empty local name on a store
    with the empty prefix gives the empty metric name, which is not an
    identifier of the backend's grammar. *)
Theorem sanitizeName_empty :
  sanitizeName "" = "" /\
  (forall p, Store.prefix p = "" -> Store.buildMetricName p "" = "") /\
  matches_identifier "" = false.
Proof.
  split; [reflexivity |]. split; [| reflexivity].
  intros p Hp. unfold Store.buildMetricName. rewrite Hp. reflexivity.
Qed.

End Sanitizer.

(** ** Wrap-around of [int] *)

Section GoIntFacts.

Lemma wrap_add_l x y : GoInt.wrap (GoInt.wrap x + y) = GoInt.wrap (x + y).
Proof.
  unfold GoInt.wrap.
  replace ((x + 2 ^ (GoInt.bits - 1)) mod 2 ^ GoInt.bits - 2 ^ (GoInt.bits - 1)
           + y + 2 ^ (GoInt.bits - 1))%Z
    with ((x + 2 ^ (GoInt.bits - 1)) mod 2 ^ GoInt.bits + y)%Z by lia.
  rewrite Zplus_mod_idemp_l. f_equal. f_equal. lia.
Qed.

Lemma wrap_in_range z : GoInt.in_range z -> GoInt.wrap z = z.
Proof.
  unfold GoInt.in_range, GoInt.wrap, GoInt.min_int, GoInt.max_int, GoInt.bits.
  intros Hz. rewrite Z.mod_small; lia.
Qed.

End GoIntFacts.

(** ** The metric store: create or reuse *)

Section StoreFacts.
Context `{B : Backend}.
Import Store.

Implicit Types (w : World) (s : Prometheus) (k : Kind) (name : string).

Lemma handles_set_handle k name h s :
  handles k (set_handle k name h s) !! name = Some h.
Proof. destruct k; simpl; apply lookup_insert_eq. Qed.

Lemma bind_load {A} p s w (f : Prometheus -> M A) :
  stores w !! p = Some s -> bind (load p) f w = f s w.
Proof. intros Hp. unfold bind, load. rewrite Hp. reflexivity. Qed.

Lemma bind_modify {A} p s w g (f : unit -> M A) :
  stores w !! p = Some s ->
  bind (modify p g) f w = f tt (set_stores (<[p := g s]> (stores w)) w).
Proof. intros Hp. unfold bind, modify. rewrite Hp. reflexivity. Qed.

Lemma getOrCreate_hit k p name w s h :
  stores w !! p = Some s ->
  handles k s !! name = Some h ->
  getOrCreate k p name w = Some (h, w).
Proof.
  intros Hp Hh. unfold getOrCreate, bind, load. rewrite Hp, Hh. reflexivity.
Qed.

(** The slow path, spelled out by the answer of the registry. *)
Lemma getOrCreate_miss k p name w s reg :
  stores w !! p = Some s ->
  handles k s !! name = None ->
  registries w !! registry_ptr s = Some reg ->
  getOrCreate k p name w =
    Some
      match answer k s name reg w with
      | Some err =>
          match adoptable k err with
          | Some existing =>
              (existing,
               set_stores (<[p := set_handle k name existing s]> (stores w))
                          (offered k s name reg w))
          | None =>
              (next_collector w,
               add_log (LogError [lib_field; FStr "name" (buildMetricName s name)] err)
                       (offered k s name reg w))
          end
      | None =>
          (next_collector w,
           set_stores (<[p := set_handle k name (next_collector w) s]> (stores w))
                      (offered k s name reg w))
      end.
Proof.
  intros Hp Hh Hr.
  unfold getOrCreate.
  rewrite (bind_load p s w _ Hp), Hh, (bind_load p s w _ Hp), Hh.
  unfold bind at 1. unfold new_handle.
  unfold bind at 1. unfold register.
  cbn [registries add_created next_collector]. rewrite Hr.
  unfold answer, offered.
  destruct (Register reg (next_collector w) k _) as [reg' [err |]];
    cbn [fst snd].
  - destruct (adoptable k err) as [existing |].
    + erewrite bind_modify by (cbn [stores set_registries add_created]; exact Hp).
      reflexivity.
    + reflexivity.
  - erewrite bind_modify by (cbn [stores set_registries add_created]; exact Hp).
    reflexivity.
Qed.

(** The call returns whenever the store and its registry are there. *)
Lemma getOrCreate_returns k p name w s reg :
  stores w !! p = Some s ->
  registries w !! registry_ptr s = Some reg ->
  exists h w', getOrCreate k p name w = Some (h, w').
Proof.
  intros Hp Hr.
  destruct (handles k s !! name) as [h |] eqn:Hh.
  - eauto using getOrCreate_hit.
  - rewrite (getOrCreate_miss k p name w s reg Hp Hh Hr).
    destruct (answer k s name reg w) as [err |];
      [destruct (adoptable k err) |]; eauto.
Qed.

Lemma stores_set_lookup p s s' w :
  stores w !! p = Some s ->
  <[p := s']> (stores w) !! p = Some s'.
Proof.
  intros Hp. apply list_lookup_insert_eq. eapply lookup_lt_Some, Hp.
Qed.







(** A call that returns has found its store, and on the slow path
    its registry. *)
Lemma getOrCreate_inv k p name w h w' :
  getOrCreate k p name w = Some (h, w') ->
  exists s, stores w !! p = Some s /\
    ((handles k s !! name = Some h /\ w' = w) \/
     (handles k s !! name = None /\
      exists reg, registries w !! registry_ptr s = Some reg)).
Proof.
  intros H.
  destruct (stores w !! p) as [s |] eqn:Hp.
  - exists s. split; [reflexivity |].
    destruct (handles k s !! name) as [h0 |] eqn:Hh.
    + left. rewrite (getOrCreate_hit k p name w s h0 Hp Hh) in H.
      now inversion H.
    + right. split; [reflexivity |].
      destruct (registries w !! registry_ptr s) as [reg |] eqn:Hr; [eauto |].
      exfalso. unfold getOrCreate in H.
      rewrite (bind_load p s w _ Hp), Hh, (bind_load p s w _ Hp), Hh in H.
      unfold bind at 1, new_handle in H.
      unfold bind at 1, register in H.
      cbn [registries add_created next_collector] in H.
      rewrite Hr in H. discriminate.
  - unfold getOrCreate, bind, load in H. rewrite Hp in H. discriminate.
Qed.

(** Fetching a handle makes no call on any handle. *)
Lemma getOrCreate_calls k p name w h w' :
  getOrCreate k p name w = Some (h, w') -> calls w' = calls w.
Proof.
  intros H.
  destruct (getOrCreate_inv k p name w h w' H)
    as (s & Hp & [[_ ->] | [Hh [reg Hr]]]); [reflexivity |].
  rewrite (getOrCreate_miss k p name w s reg Hp Hh Hr) in H.
  destruct (answer k s name reg w) as [err |];
    [destruct (adoptable k err) |]; inversion H; reflexivity.
Qed.

(** Fetching a handle keeps the prefix caches sound. *)
Lemma set_handle_prefixes k name h s :
  prefixes (set_handle k name h s) = prefixes s.
Proof. destruct k; reflexivity. Qed.

Lemma insert_handle_prefixes_ok k p name h w s w' :
  prefixes_ok w ->
  stores w !! p = Some s ->
  stores w' = <[p := set_handle k name h s]> (stores w) ->
  prefixes_ok w'.
Proof.
  intros Hok Hp Hs p' s' Hp'. rewrite Hs in *. rewrite length_insert.
  destruct (decide (p = p')) as [<- | Hne].
  - rewrite list_lookup_insert_eq in Hp' by (eapply lookup_lt_Some, Hp).
    inversion Hp'; subst s'. rewrite set_handle_prefixes. exact (Hok p s Hp).
  - rewrite list_lookup_insert_ne in Hp' by assumption. exact (Hok p' s' Hp').
Qed.

Lemma getOrCreate_prefixes_ok k p name w h w' :
  prefixes_ok w ->
  getOrCreate k p name w = Some (h, w') ->
  prefixes_ok w'.
Proof.
  intros Hok H.
  destruct (getOrCreate_inv k p name w h w' H)
    as (s & Hp & [[_ ->] | [Hh [reg Hr]]]); [exact Hok |].
  rewrite (getOrCreate_miss k p name w s reg Hp Hh Hr) in H.
  destruct (answer k s name reg w) as [err |];
    [destruct (adoptable k err) as [existing |] |]; inversion H; subst.
  - eapply insert_handle_prefixes_ok; [exact Hok | exact Hp | reflexivity].
  - exact Hok.
  - eapply insert_handle_prefixes_ok; [exact Hok | exact Hp | reflexivity].
Qed.

(** ** Counter and Time *)

Example float64_of_5 : Float64.of_int 5 = S754_finite false 5629499534213120 (-50).
Proof. reflexivity. Qed.

(** Ties go to even: 2^53 + 1 becomes 2^53. *)
Example float64_rounds :
  Float64.of_int 9007199254740993 = S754_finite false 4503599627370496 1.
Proof. reflexivity. Qed.

(** 1.5 ms, the example of the package's README, in seconds. *)
Example seconds_of_1500000ns :
  Float64.div (Float64.of_int 1500000) Float64.c1e9
  = S754_finite false 6917529027641082 (-62).
Proof. vm_compute. reflexivity. Qed.

(** The sum is Go's: past the largest [int] it wraps around. *)
Example counter_value_wraps :
  counter_value [9223372036854775807; 1]%Z = (-9223372036854775808)%Z.
Proof. reflexivity. Qed.

(** A negative amount reaches [Add] as it is. *)
Example counter_value_negative :
  Float64.of_int (counter_value [2; -7]%Z) = S754_finite true 5629499534213120 (-50).
Proof. reflexivity. Qed.

(** The loop adds up modulo the word size. *)
Lemma sum_from_cons vs :
  forall a v,
    sum_from a (v :: vs) = GoInt.wrap (a + fold_right Z.add 0%Z (v :: vs)).
Proof.
  induction vs as [| v' vs IH]; intros a v.
  - simpl. unfold GoInt.add. f_equal. lia.
  - change (sum_from a (v :: v' :: vs))
      with (sum_from (GoInt.add a v) (v' :: vs)).
    rewrite IH. unfold GoInt.add. rewrite wrap_add_l.
    f_equal. simpl. lia.
Qed.

Lemma counter_value_spec values :
  counter_value values = GoInt.wrap (spec_increment values).
Proof.
  destruct values as [| v vs].
  - reflexivity.
  - unfold counter_value, spec_increment. cbn [length Nat.ltb Nat.leb].
    rewrite sum_from_cons. f_equal.
Qed.

(** C6: [Counter(name)] without values calls [Add(1)] on the counter
    for [name]; with values it calls [Add] once with their sum, as
    Go's [int] adds them (the sum itself whenever that fits [int]);
    the amount goes to [Add] whatever its sign, for the layer has no
    check on it. *)
Theorem Counter_adds_sum p name values w s reg :
  stores w !! p = Some s ->
  registries w !! registry_ptr s = Some reg ->
  exists h w1 w2,
    getOrCreateCounter p name w = Some (h, w1) /\
    Counter p name values w = Some (tt, w2) /\
    calls w2 = (calls w ++ [(h, Add (Float64.of_int (counter_value values)))])%list /\
    (values = [] -> counter_value values = 1%Z) /\
    counter_value values = GoInt.wrap (spec_increment values) /\
    (GoInt.in_range (spec_increment values) ->
     counter_value values = spec_increment values).
Proof.
  intros Hp Hr.
  destruct (getOrCreate_returns KCounter p name w s reg Hp Hr) as (h & w1 & Hrun).
  exists h, w1, (add_call h (Add (Float64.of_int (counter_value values))) w1).
  split; [exact Hrun |]. split.
  - unfold Counter, bind. unfold getOrCreateCounter. rewrite Hrun. reflexivity.
  - split.
    { cbn [calls add_call]. now rewrite (getOrCreate_calls _ _ _ _ _ _ Hrun). }
    split; [intros ->; reflexivity |].
    split; [apply counter_value_spec |].
    intros Hin. rewrite counter_value_spec. now apply wrap_in_range.
Qed.

(** The histogram constructor is reached on a miss only. *)
Lemma getOrCreateHistogram_runs p name w s :
  stores w !! p = Some s ->
  is_Some (histograms s !! name) \/ buckets_increasing (buckets s) = true ->
  getOrCreateHistogram p name w = getOrCreate KHistogram p name w.
Proof.
  intros Hp Hok. unfold getOrCreateHistogram.
  rewrite (bind_load p s w _ Hp).
  destruct (histograms s !! name) as [h |] eqn:Hh; [reflexivity |].
  destruct Hok as [[h Hsome] | ->]; [discriminate | reflexivity].
Qed.

Lemma getOrCreateHistogram_panics p name w s :
  stores w !! p = Some s ->
  histograms s !! name = None ->
  buckets_increasing (buckets s) = false ->
  getOrCreateHistogram p name w = None.
Proof.
  intros Hp Hh Hb. unfold getOrCreateHistogram.
  rewrite (bind_load p s w _ Hp), Hh, Hb. reflexivity.
Qed.

(** C7, the claim as worded fails: on a store whose buckets are the
    boundary 1 twice, [Time] for a new name panics in
    [prometheus.NewHistogram] and records nothing. *)
Lemma Time_panics_on_flat_buckets :
  stores (flat_world accepting_backend tt) !! 0 = Some flat_store /\
  registries (flat_world accepting_backend tt) !! registry_ptr flat_store = Some tt /\
  @Time accepting_backend 0 "latency" 1500000 (flat_world accepting_backend tt) = None.
Proof. split; [reflexivity |]. split; reflexivity. Qed.

(** C7, amended: when the histogram for [name] is cached already or
    the buckets of the store are strictly increasing,
    [Time(name, d)] makes one call on the histogram for [name],
    [Observe(float64(d) / 1e9)], the duration [d] of nanoseconds in
    seconds; for a new name on buckets that are not strictly increasing
    it panics in the constructor of the histogram. *)
Theorem Time_observes_seconds p name duration w s reg :
  stores w !! p = Some s ->
  registries w !! registry_ptr s = Some reg ->
  (is_Some (histograms s !! name) \/ buckets_increasing (buckets s) = true ->
   exists h w1 w2,
     getOrCreateHistogram p name w = Some (h, w1) /\
     Time p name duration w = Some (tt, w2) /\
     calls w2
       = (calls w ++ [(h, Observe (Float64.div (Float64.of_int duration)
                                               (Float64.of_int 1000000000)))])%list) /\
  (histograms s !! name = None -> buckets_increasing (buckets s) = false ->
   Time p name duration w = None).
Proof.
  intros Hp Hr. split.
  - intros Hok.
    destruct (getOrCreate_returns KHistogram p name w s reg Hp Hr) as (h & w1 & Hrun).
    exists h, w1,
      (add_call h (Observe (Float64.div (Float64.of_int duration) Float64.c1e9)) w1).
    rewrite (getOrCreateHistogram_runs p name w s Hp Hok).
    split; [exact Hrun |]. split.
    + unfold Time, bind. rewrite (getOrCreateHistogram_runs p name w s Hp Hok), Hrun.
      reflexivity.
    + cbn [calls add_call]. now rewrite (getOrCreate_calls _ _ _ _ _ _ Hrun).
  - intros Hh Hb. unfold Time, bind.
    now rewrite (getOrCreateHistogram_panics p name w s Hp Hh Hb).
Qed.

(** The amount of [Counter("requests", 2, -7)] is one that a counter
    built by [NewCounter] answers with a panic, and a gauge takes. *)
Example Counter_negative_amount_faults :
  counter_value [2; -7]%Z = (-5)%Z /\
  faults DCounter (Add (Float64.of_int (counter_value [2; -7]%Z))) = true /\
  faults DGauge (Add (Float64.of_int (counter_value [2; -7]%Z))) = false.
Proof. repeat split; reflexivity. Qed.

(** ** The prefix cache *)

Lemma WithPrefix_hit p q w s child :
  stores w !! p = Some s ->
  prefixes s !! q = Some (Some child) ->
  WithPrefix p q w = Some (child, w).
Proof.
  intros Hp Hq. unfold WithPrefix.
  rewrite (bind_load p s w _ Hp), Hq. reflexivity.
Qed.

(** On a miss the new store is put at the end of the heap and entered
    under the raw key. *)
Lemma WithPrefix_miss p q w s :
  stores w !! p = Some s ->
  (forall child, prefixes s !! q <> Some (Some child)) ->
  WithPrefix p q w =
    Some (length (stores w),
          set_stores
            (<[p := set_prefix q (length (stores w)) s]>
               (stores w ++ [child_store q s])%list)
            w).
Proof.
  intros Hp Hq. unfold WithPrefix.
  rewrite (bind_load p s w _ Hp).
  assert (Hgo : forall (A : Type) (x : nat -> A) (y : A),
             match prefixes s !! q with
             | Some (Some child) => x child
             | _ => y
             end = y).
  { intros A x y. destruct (prefixes s !! q) as [[child |] |];
      [exfalso; exact (Hq child eq_refl) | reflexivity | reflexivity]. }
  rewrite Hgo.
  unfold bind at 1, newPrometheus, alloc.
  erewrite bind_modify.
  - reflexivity.
  - cbn [stores set_stores]. apply lookup_app_l_Some, Hp.
Qed.

Lemma WithPrefix_returns p q w s :
  stores w !! p = Some s -> exists a w1, WithPrefix p q w = Some (a, w1).
Proof.
  intros Hp.
  destruct (prefixes s !! q) as [[child |] |] eqn:Hq.
  - eauto using WithPrefix_hit.
  - eexists _, _. apply (WithPrefix_miss p q w s Hp). congruence.
  - eexists _, _. apply (WithPrefix_miss p q w s Hp). congruence.
Qed.

Lemma WithPrefix_miss_parent p q w s :
  stores w !! p = Some s ->
  <[p := set_prefix q (length (stores w)) s]>
    (stores w ++ [child_store q s])%list !! p
  = Some (set_prefix q (length (stores w)) s).
Proof.
  intros Hp. apply list_lookup_insert_eq.
  rewrite length_app. apply lookup_lt_Some in Hp. lia.
Qed.

(** What one call of [WithPrefix] leaves: the address returned is the
    entry of the parent under the raw key, a second call returns it
    with the world as it is, and it was either cached before or is the
    store just put at the end of the heap. *)
Lemma WithPrefix_entry p q w s :
  stores w !! p = Some s ->
  exists a w1 s1,
    WithPrefix p q w = Some (a, w1) /\
    WithPrefix p q w1 = Some (a, w1) /\
    stores w1 !! p = Some s1 /\
    prefixes s1 !! q = Some (Some a) /\
    (prefixes s !! q = Some (Some a) \/ a = length (stores w)) /\
    length (stores w) <= length (stores w1) /\
    (forall q' c, prefixes s !! q' = Some (Some c) -> prefixes s1 !! q' = Some (Some c)) /\
    (prefixes_ok w -> a < length (stores w1)).
Proof.
  intros Hp.
  assert (Hcase :
    (exists c, prefixes s !! q = Some (Some c)) \/
    (forall c, prefixes s !! q <> Some (Some c))).
  { destruct (prefixes s !! q) as [[c |] |]; [left; eauto | right | right];
      congruence. }
  destruct Hcase as [[c Hq] | Hq].
  - exists c, w, s.
    split; [eapply WithPrefix_hit; eauto |].
    split; [eapply WithPrefix_hit; eauto |].
    split; [exact Hp |]. split; [exact Hq |]. split; [now left |].
    split; [lia |]. split; [auto |].
    intros Hok. destruct (Hok p s Hp) as [Hlt _]. exact (Hlt q c Hq).
  - pose proof (WithPrefix_miss p q w s Hp Hq) as Hrun.
    pose proof (WithPrefix_miss_parent p q w s Hp) as Hp1.
    eexists _, _, _. split; [exact Hrun |].
    split.
    { eapply WithPrefix_hit; [exact Hp1 |].
      cbn [prefixes set_prefix]. apply lookup_insert_eq. }
    split; [exact Hp1 |].
    split; [cbn [prefixes set_prefix]; apply lookup_insert_eq |].
    split; [now right |].
    cbn [stores set_stores]. rewrite length_insert, length_app. cbn [length].
    split; [lia |]. split; [| intros _; lia].
    intros q' c Hc. cbn [prefixes set_prefix].
    rewrite lookup_insert_ne; [exact Hc |]. intros ->. exact (Hq c Hc).
Qed.

(** The cache stays sound under [WithPrefix]. *)
Lemma WithPrefix_prefixes_ok p q w a w1 :
  prefixes_ok w ->
  WithPrefix p q w = Some (a, w1) ->
  prefixes_ok w1.
Proof.
  intros Hok Hrun.
  destruct (stores w !! p) as [s |] eqn:Hp;
    [| unfold WithPrefix, bind, load in Hrun; rewrite Hp in Hrun; discriminate].
  assert (Hcase :
    (exists c, prefixes s !! q = Some (Some c)) \/
    (forall c, prefixes s !! q <> Some (Some c))).
  { destruct (prefixes s !! q) as [[c |] |]; [left; eauto | right | right];
      congruence. }
  destruct Hcase as [[c Hq] | Hq].
  - rewrite (WithPrefix_hit p q w s c Hp Hq) in Hrun. now inversion Hrun; subst.
  - rewrite (WithPrefix_miss p q w s Hp Hq) in Hrun. inversion Hrun; subst a w1.
    clear Hrun. pose proof (lookup_lt_Some _ _ _ Hp) as Hlen.
    intros p' s' Hp'. cbn [stores set_stores] in *.
    rewrite length_insert, length_app. cbn [length].
    destruct (decide (p = p')) as [<- | Hpp].
    + rewrite list_lookup_insert_eq in Hp' by (rewrite length_app; lia).
      inversion Hp'; subst s'. cbn [prefixes set_prefix].
      destruct (Hok p s Hp) as [Hlt Hinj]. split.
      * intros key child Hk.
        destruct (decide (q = key)) as [<- | Hqk].
        -- rewrite lookup_insert_eq in Hk. inversion Hk. lia.
        -- rewrite lookup_insert_ne in Hk by assumption.
           specialize (Hlt key child Hk). lia.
      * intros key1 key2 child Hk1 Hk2.
        destruct (decide (q = key1)) as [<- | Hq1];
          destruct (decide (q = key2)) as [<- | Hq2]; [reflexivity | | |].
        -- rewrite lookup_insert_eq in Hk1. inversion Hk1; subst child.
           rewrite lookup_insert_ne in Hk2 by assumption.
           specialize (Hlt key2 _ Hk2). lia.
        -- rewrite lookup_insert_eq in Hk2. inversion Hk2; subst child.
           rewrite lookup_insert_ne in Hk1 by assumption.
           specialize (Hlt key1 _ Hk1). lia.
        -- rewrite lookup_insert_ne in Hk1, Hk2 by assumption. eauto.
    + rewrite list_lookup_insert_ne in Hp' by assumption.
      destruct (decide (p' < length (stores w))) as [Hin | Hout].
      * rewrite lookup_app_l in Hp' by assumption.
        destruct (Hok p' s' Hp') as [Hlt Hinj]. split; [| exact Hinj].
        intros key child Hk. specialize (Hlt key child Hk). lia.
      * rewrite lookup_app_r in Hp' by lia.
        destruct (p' - length (stores w)) as [| m] eqn:Hm;
          [| destruct m; discriminate].
        inversion Hp'; subst s'. cbn [prefixes child_store].
        split; intros *; rewrite lookup_empty; discriminate.
Qed.

(** C5: on every store [p] and for every prefix [q], two calls
    [p.WithPrefix(q)] in a row return the same store instance: the
    address returned is the entry that the parent holds under [q], it
    is the address of a store on the heap when the caches of the heap
    are sound, and the second call returns it and leaves the world as
    it is.  The cache is keyed by the string as requested, so on a
    sound heap two different strings, ["api"] and ["api."] among them,
    get two different store instances, both on the heap and both held
    by the parent, each under its own key. *)
Theorem WithPrefix_referentially_stable p w s :
  stores w !! p = Some s ->
  (forall q, exists a w1,
      WithPrefix p q w = Some (a, w1) /\
      WithPrefix p q w1 = Some (a, w1) /\
      (exists s1, stores w1 !! p = Some s1 /\ prefixes s1 !! q = Some (Some a)) /\
      (prefixes_ok w -> is_Some (stores w1 !! a))) /\
  (prefixes_ok w ->
   (forall q1 q2, q1 <> q2 ->
      exists a b w1 w2,
        WithPrefix p q1 w = Some (a, w1) /\
        WithPrefix p q2 w1 = Some (b, w2) /\ a <> b /\
        cached_store p q1 a w2 /\ cached_store p q2 b w2) /\
   (exists a b w1 w2,
      WithPrefix p "api" w = Some (a, w1) /\
      WithPrefix p "api." w1 = Some (b, w2) /\ a <> b /\
      cached_store p "api" a w2 /\ cached_store p "api." b w2)).
Proof.
  intros Hp.
  assert (Hdistinct : prefixes_ok w -> forall q1 q2, q1 <> q2 ->
      exists a b w1 w2,
        WithPrefix p q1 w = Some (a, w1) /\
        WithPrefix p q2 w1 = Some (b, w2) /\ a <> b /\
        cached_store p q1 a w2 /\ cached_store p q2 b w2).
  { intros Hok q1 q2 Hne.
    destruct (WithPrefix_entry p q1 w s Hp)
      as (a & w1 & s1 & R1 & _ & Hp1 & Hc1 & _ & _ & _ & Ha).
    pose proof (WithPrefix_prefixes_ok p q1 w a w1 Hok R1) as Hok1.
    destruct (WithPrefix_entry p q2 w1 s1 Hp1)
      as (b & w2 & s2 & R2 & _ & Hp2 & Hc2 & Hcase & Hlen & Hpres & Hb).
    specialize (Ha Hok). specialize (Hb Hok1).
    exists a, b, w1, w2.
    split; [exact R1 |]. split; [exact R2 |]. split.
    - destruct Hcase as [Hhit | ->]; [| lia].
      intros ->. destruct (Hok1 p s1 Hp1) as [_ Hinj].
      exact (Hne (Hinj q1 q2 b Hc1 Hhit)).
    - split; (split; [apply lookup_lt_is_Some; lia |]); exists s2; auto. }
  split.
  - intros q.
    destruct (WithPrefix_entry p q w s Hp)
      as (a & w1 & s1 & R1 & R2 & Hp1 & Hc1 & _ & _ & _ & Ha).
    exists a, w1. split; [exact R1 |]. split; [exact R2 |].
    split; [exists s1; auto |].
    intros Hok. apply lookup_lt_is_Some. auto.
  - intros Hok. split; [exact (Hdistinct Hok) |].
    apply (Hdistinct Hok). discriminate.
Qed.

Lemma root_world_prefixes_ok reg : prefixes_ok (root_world B reg).
Proof.
  intros p s Hp. destruct p as [| p]; [| destruct p; discriminate].
  inversion Hp; subst s. cbn [prefixes root_store].
  split; intros *; rewrite lookup_empty; discriminate.
Qed.

End StoreFacts.

(** ** Dialling with retries *)

Section DialingFacts.
Import Dialing.
Variable Dial : nat -> option error.

Local Ltac count :=
  unfold additional_attempts, attempts, sleeps, fatals in *; cbn in *; lia.

Lemma add_one_small n :
  (n <= 11)%nat -> GoInt.add (Z.of_nat n) 1 = Z.of_nat (S n).
Proof.
  intros Hn. unfold GoInt.add. rewrite wrap_in_range; [lia |].
  unfold GoInt.in_range, GoInt.min_int, GoInt.max_int, GoInt.bits. lia.
Qed.

(** The loop from its [n]-th round on, when twelve rounds are
    allowed in all. *)
Lemma again_run fuel :
  forall n,
    (n + fuel = 12)%nat -> (1 <= fuel)%nat ->
    forall o tr,
      again Dial fuel (Z.of_nat n) n = (o, tr) ->
      o <> OutOfFuel /\
      (attempts tr <= fuel)%nat /\
      (o = Returned -> sleeps tr + 1 = attempts tr /\ fatals tr = 0)%nat /\
      (o = Exited -> sleeps tr + 1 = attempts tr /\ attempts tr = fuel /\
                     fatals tr = 1)%nat /\
      pauses_one_second tr /\
      (o = Exited <-> forall i, (n <= i < 12)%nat -> Dial i <> None).
Proof.
  induction fuel as [| fuel IH]; intros n Hsum Hfuel o tr Hrun; [lia |].
  cbn [again] in Hrun.
  destruct (Dial n) as [err |] eqn:Hd.
  - destruct (10 <? Z.of_nat n)%Z eqn:Hr.
    + (* the twelfth call has failed *)
      apply Z.ltb_lt in Hr. assert (n = 11)%nat by lia. subst n.
      inversion Hrun; subst o tr. assert (fuel = 0)%nat by lia. subst fuel.
      split; [discriminate |]. split; [count |].
      split; [discriminate |]. split; [intros _; repeat split; count |].
      split; [intros ns [Hin | [Hin | []]]; discriminate |].
      split; [| reflexivity].
      intros _ i Hi. assert (i = 11)%nat by lia. subst i. congruence.
    + apply Z.ltb_ge in Hr. assert (Hn : (n <= 10)%nat) by lia.
      rewrite add_one_small in Hrun by lia.
      destruct (again Dial fuel (Z.of_nat (S n)) (S n)) as [o' tr'] eqn:Hrec.
      inversion Hrun; subst o tr.
      destruct (IH (S n) ltac:(lia) ltac:(lia) o' tr' Hrec)
        as (Hfuel' & Hatt & Hret & Hexit & Hpause & Hiff).
      split; [exact Hfuel' |].
      split; [count |].
      split; [intros Ho; destruct (Hret Ho); split; count |].
      split; [intros Ho; destruct (Hexit Ho) as (? & ? & ?);
              repeat split; count |].
      split.
      * intros ns [Hin | [Hin | Hin]];
          [discriminate | now inversion Hin | now apply Hpause].
      * rewrite Hiff. split.
        -- intros Hall i Hi. destruct (decide (i = n)) as [-> | Hne];
             [congruence | apply Hall; lia].
        -- intros Hall i Hi. apply Hall. lia.
  - inversion Hrun; subst o tr.
    split; [discriminate |]. split; [count |].
    split; [intros _; split; count |]. split; [discriminate |].
    split; [intros ns [Hin | []]; discriminate |].
    split; [discriminate |].
    intros Hall. exfalso. apply (Hall n); [lia | exact Hd].
Qed.

(** More fuel than the loop needs changes nothing. *)
Lemma again_fuel_mono fuel :
  forall r n o tr k,
    again Dial fuel r n = (o, tr) -> o <> OutOfFuel ->
    again Dial (fuel + k) r n = (o, tr).
Proof.
  induction fuel as [| fuel IH]; intros r n o tr k Hrun Ho.
  - inversion Hrun; subst o. congruence.
  - cbn [again Nat.add] in *.
    destruct (Dial n) as [err |]; [| exact Hrun].
    destruct (10 <? r)%Z; [exact Hrun |].
    destruct (again Dial fuel (GoInt.add r 1) (S n)) as [o' tr'] eqn:Hrec.
    inversion Hrun; subst o tr.
    now rewrite (IH _ _ _ _ k Hrec Ho).
Qed.

End DialingFacts.


(** ** The exposition server *)

Section ServerFacts.
Import Server.
Context `{N : Net}.

Lemma filter_negb_none {A} (f : A -> bool) l :
  existsb f (List.filter (fun x => negb (f x)) l) = false.
Proof.
  induction l as [| x l IH]; [reflexivity |]. simpl.
  destruct (f x) eqn:E; simpl; [exact IH | now rewrite E].
Qed.

(** ** The mux *)

Lemma mux_handle_Some pattern mux m :
  mux_handle pattern mux = Some m -> m = (mux ++ [pattern])%list.
Proof.
  unfold mux_handle.
  destruct (negb (String.eqb pattern "") && valid_pattern pattern
            && negb (existsb (String.eqb pattern) mux)); congruence.
Qed.

(** The paths that [start] gets past the mux with. *)
Lemma startable_iff pth :
  startable pth = true <->
  pth <> "" /\ pth <> "/health" /\
  valid_pattern pth = true /\ valid_pattern "/health" = true.
Proof.
  unfold startable, mux_handle. cbn [existsb app].
  destruct (String.eqb_spec pth "") as [-> | Hne]; cbn [negb andb].
  { split; [discriminate | intros [H _]; now elim H]. }
  destruct (valid_pattern pth) eqn:Hv; cbn [negb andb];
    [| split; [discriminate | intros (_ & _ & H & _); discriminate H]].
  change (String.eqb "/health" "") with false. cbn [negb andb orb].
  destruct (valid_pattern "/health") eqn:Hh; cbn [negb andb];
    [| split; [discriminate | intros (_ & _ & _ & H); discriminate H]].
  cbn [existsb app]. rewrite orb_false_r.
  destruct (String.eqb_spec "/health" pth) as [<- | Hp]; cbn [negb].
  - split; [discriminate | intros (_ & H & _); now elim H].
  - split; [intros _ | reflexivity]. repeat split; congruence.
Qed.

Lemma startable_handles pth :
  startable pth = true ->
  mux_handle pth [] = Some [pth] /\ mux_handle "/health" [pth] = Some [pth; "/health"].
Proof.
  unfold startable. intros H.
  destruct (mux_handle pth []) as [m |] eqn:H1; [| discriminate].
  apply mux_handle_Some in H1 as E. cbn [app] in E. subst m.
  destruct (mux_handle "/health" [pth]) as [m |] eqn:H2; [| discriminate].
  apply mux_handle_Some in H2 as E. cbn [app] in E. subst m.
  split; reflexivity.
Qed.

(** ** What the goroutine and [stop] leave alone *)

Lemma enter_frame a st :
  servers (enter a st) = servers st /\
  currentServer (enter a st) = currentServer st.
Proof.
  unfold enter. destruct (servers st !! a) as [s |]; [| split; reflexivity].
  destruct (httpServer s) as [h |]; [| split; reflexivity].
  destruct (inShutdown h); split; reflexivity.
Qed.

Lemma bind_frame a st :
  servers (bind a st) = servers st /\
  currentServer (bind a st) = currentServer st.
Proof.
  unfold bind. destruct (servers st !! a) as [s |]; [| split; reflexivity].
  destruct (httpServer s) as [h |]; [| split; reflexivity].
  destruct (listen (Addr h)); [split; reflexivity |].
  destruct (inShutdown h); split; reflexivity.
Qed.

Lemma schedule_frame a st :
  servers (schedule a st) = servers st /\
  currentServer (schedule a st) = currentServer st.
Proof.
  unfold schedule. destruct (existsb (is_spawned a) (goroutines st)).
  - destruct (enter_frame a (drop (is_spawned a) st)) as [-> ->]. split; reflexivity.
  - destruct (existsb (is_checked a) (goroutines st)); [| split; reflexivity].
    destruct (bind_frame a (drop (is_checked a) st)) as [-> ->]. split; reflexivity.
Qed.

Lemma wait_frame a st :
  servers (wait a st) = servers st /\
  currentServer (wait a st) = currentServer st.
Proof.
  unfold wait. cbn [servers currentServer drop set_goroutines].
  destruct (schedule_frame a (schedule a st)) as [-> ->].
  exact (schedule_frame a st).
Qed.

(** Stopping an open server on the heap does not panic and keeps the
    heap's size and [currentServer]. *)
Lemma stop_open a st s :
  servers st !! a = Some s ->
  stopChan_closed s = false ->
  exists r st',
    stop a st = Some (r, st') /\
    length (servers st') = length (servers st) /\
    currentServer st' = currentServer st.
Proof.
  intros Ha Hopen. unfold stop. rewrite Ha, Hopen.
  destruct (httpServer s) as [h |].
  - set (s' := {| httpServer := Some _; port := port s; path := path s;
                  registry := registry s; stopChan_closed := true |}).
    destruct (shutdown (Addr h)) as [err |].
    + eexists _, _. split; [reflexivity |].
      cbn [servers currentServer set_server drop set_goroutines].
      now rewrite length_insert.
    + eexists _, _. split; [reflexivity |].
      destruct (wait_frame a (drop (is_serving a) (set_server a s' st))) as [-> ->].
      cbn [servers currentServer set_server drop set_goroutines].
      now rewrite length_insert.
  - eexists _, _. split; [reflexivity |].
    cbn [servers currentServer set_server]. now rewrite length_insert.
Qed.

(** ** Starting *)

(** A new server, made current and started on the state [st], on a
    path that the mux takes. *)
Lemma start_fresh prt pth rg st :
  startable pth = true ->
  start (length (servers st))
        (set_current (Some (length (servers st)))
                     (snd (newServer prt pth rg st)))
  = Some (None, started prt pth rg st).
Proof.
  intros Hok. destruct (startable_handles pth Hok) as [H1 H2].
  unfold start, newServer, started.
  cbn [snd servers set_current].
  rewrite lookup_app_r by lia. rewrite Nat.sub_diag. cbn [lookup list_lookup].
  cbn [port path registry stopChan_closed]. rewrite H1, H2.
  unfold set_goroutines, set_server, built.
  cbn [servers currentServer goroutines log set_current].
  do 3 f_equal.
  rewrite insert_app_r_alt by lia. rewrite Nat.sub_diag. reflexivity.
Qed.

(** On a path that the mux does not take, [start] panics. *)
Lemma start_rejected prt pth rg st :
  startable pth = false ->
  start (length (servers st))
        (set_current (Some (length (servers st)))
                     (snd (newServer prt pth rg st)))
  = None.
Proof.
  intros Hno. unfold start, newServer.
  cbn [snd servers set_current].
  rewrite lookup_app_r by lia. rewrite Nat.sub_diag. cbn [lookup list_lookup].
  cbn [path]. unfold startable in Hno.
  destruct (mux_handle pth []) as [m |]; [| reflexivity].
  destruct (mux_handle "/health" m); [discriminate | reflexivity].
Qed.

Lemma startServer_absent prt pth rg st :
  startable pth = true ->
  currentServer st = None ->
  startServer prt pth rg st = Some (None, started prt pth rg st).
Proof.
  intros Hok Hc. unfold startServer. rewrite Hc. now apply start_fresh.
Qed.

Lemma startServer_replace prt pth rg st cur r st1 :
  startable pth = true ->
  currentServer st = Some cur ->
  stop cur st = Some (r, st1) ->
  startServer prt pth rg st = Some (None, started prt pth rg st1).
Proof.
  intros Hok Hc Hs. unfold startServer. rewrite Hc, Hs. now apply start_fresh.
Qed.

Lemma startServer_rejected prt pth rg st :
  startable pth = false ->
  startServer prt pth rg st = None.
Proof.
  intros Hno. unfold startServer.
  destruct (currentServer st) as [cur |].
  - destruct (stop cur st) as [[r st1] |]; [| reflexivity].
    now apply start_rejected.
  - now apply start_rejected.
Qed.

(** [start] has no error to return, and so has [startServer]. *)
Lemma start_nil a st r st' : start a st = Some (r, st') -> r = None.
Proof.
  unfold start. destruct (servers st !! a) as [s |]; [| discriminate].
  destruct (mux_handle (path s) []) as [m |]; [| discriminate].
  destruct (mux_handle "/health" m); [| discriminate]. congruence.
Qed.

Lemma startServer_nil prt pth rg st r st' :
  startServer prt pth rg st = Some (r, st') -> r = None.
Proof.
  unfold startServer.
  destruct (match currentServer st with
            | Some cur => match stop cur st with
                          | Some (_, st1) => Some st1
                          | None => None
                          end
            | None => Some st
            end) as [st1 |]; [| discriminate].
  destruct (newServer prt pth rg st1) as [a st2]. apply start_nil.
Qed.

(** The first step of the goroutine of a just started server: the
    line that it starts, and on to the bind. *)
Lemma schedule_started prt pth rg st :
  schedule (length (servers st)) (started prt pth rg st)
  = {| servers := servers (started prt pth rg st);
       currentServer := Some (length (servers st));
       goroutines :=
         (List.filter (fun g => negb (is_spawned (length (servers st)) g))
                      (goroutines st ++ [Spawned (length (servers st))])
          ++ [Checked (length (servers st))])%list;
       log := (log st ++ [LogInfo [lib_field; FInt "port" prt; FStr "path" pth]
                                  "starting HTTP server"])%list |}.
Proof.
  unfold schedule.
  assert (Hex : existsb (is_spawned (length (servers st)))
                        (goroutines (started prt pth rg st)) = true).
  { cbn [goroutines started]. rewrite existsb_app. cbn [existsb is_spawned].
    rewrite Nat.eqb_refl. now rewrite orb_true_r. }
  rewrite Hex. unfold enter, drop.
  cbn [servers set_goroutines started].
  rewrite lookup_app_r by lia. rewrite Nat.sub_diag. cbn [lookup list_lookup].
  cbn [httpServer built inShutdown port path].
  reflexivity.
Qed.

(** What the goroutine of a just started server does once it runs on
    a port that cannot be bound. *)
Lemma schedule_bind_failure prt pth rg st err :
  listen prt = Some err ->
  log (schedule (length (servers st))
         (schedule (length (servers st)) (started prt pth rg st)))
  = (log st ++ [LogInfo [lib_field; FInt "port" prt; FStr "path" pth]
                        "starting HTTP server";
                LogError [lib_field; FInt "port" prt] err])%list /\
  currentServer (schedule (length (servers st))
                   (schedule (length (servers st)) (started prt pth rg st)))
  = Some (length (servers st)).
Proof.
  intros Hl. rewrite schedule_started. unfold schedule.
  cbn [goroutines].
  rewrite existsb_app, filter_negb_none. cbn [existsb is_spawned orb].
  rewrite existsb_app. cbn [existsb is_checked]. rewrite Nat.eqb_refl, orb_true_r.
  unfold bind, drop. cbn [servers set_goroutines started].
  rewrite lookup_app_r by lia. rewrite Nat.sub_diag. cbn [lookup list_lookup].
  cbn [httpServer built Addr port]. rewrite Hl.
  cbn [log currentServer add_log set_goroutines].
  split; [now rewrite <- app_assoc | reflexivity].
Qed.

(** Starting a server, with or without one to replace. *)
Lemma startServer_runs prt pth rg st :
  current_open st ->
  startable pth = true ->
  exists st1,
    length (servers st1) = length (servers st) /\
    startServer prt pth rg st = Some (None, started prt pth rg st1).
Proof.
  intros Hopen Hok.
  destruct (currentServer st) as [cur |] eqn:Hc.
  - destruct (Hopen cur Hc) as (s & Hs & Hclosed).
    destruct (stop_open cur st s Hs Hclosed) as (r & st1 & Hstop & Hlen & _).
    exists st1. split; [exact Hlen |].
    exact (startServer_replace prt pth rg st cur r st1 Hok Hc Hstop).
  - exists st. split; [reflexivity |].
    exact (startServer_absent prt pth rg st Hok Hc).
Qed.

Lemma stopServer_runs st :
  current_open st ->
  exists r st', stopServer st = Some (r, st') /\ currentServer st' = None.
Proof.
  intros Hopen. unfold stopServer.
  destruct (currentServer st) as [cur |] eqn:Hc.
  - destruct (Hopen cur Hc) as (s & Hs & Hclosed).
    destruct (stop_open cur st s Hs Hclosed) as (r & st1 & Hstop & _).
    rewrite Hstop. eexists _, _. split; reflexivity.
  - eexists _, _. split; [reflexivity | exact Hc].
Qed.

(** C1 as stated fails: on a network where the port cannot be bound,
    starting the server from the initial state reports no error and
    leaves [currentServer] set. *)
Lemma startServer_hides_bind_error :
  ~ (forall (net : Net) prt pth rg st err,
       @listen net prt = Some err ->
       exists st',
         @startServer net prt pth rg st = Some (Some err, st') /\
         currentServer st' = None).
Proof.
  intros H.
  destruct (H refusing_net 2112%Z "/metrics" 0 initial port_in_use eq_refl)
    as (st' & Hrun & _).
  vm_compute in Hrun. discriminate Hrun.
Qed.

(** C1, amended: for every port and registry and every path that the
    mux takes (one that is not empty, is a valid pattern and is not
    ["/health"], the pattern of the liveness handler), starting the
    exposition server returns nil to its caller whether the listener
    can be bound or not, and leaves the process-wide server state set
    to the new server; a bind failure (port in use, permission denied)
    shows only later, as an error logged by the background serving
    task after the line that it starts.  On any other path the call
    does not return: the mux panics. *)
Theorem startServer_returns_nil prt pth rg st :
  current_open st ->
  (startable pth = true <->
   pth <> "" /\ pth <> "/health" /\
   valid_pattern pth = true /\ valid_pattern "/health" = true) /\
  (startable pth = true ->
   exists st1,
     length (servers st1) = length (servers st) /\
     startServer prt pth rg st = Some (None, started prt pth rg st1) /\
     currentServer (started prt pth rg st1) = Some (length (servers st)) /\
     In (Spawned (length (servers st))) (goroutines (started prt pth rg st1)) /\
     forall err,
       listen prt = Some err ->
       log (schedule (length (servers st))
              (schedule (length (servers st)) (started prt pth rg st1)))
       = (log st1 ++ [LogInfo [lib_field; FInt "port" prt; FStr "path" pth]
                              "starting HTTP server";
                      LogError [lib_field; FInt "port" prt] err])%list /\
       currentServer (schedule (length (servers st))
                        (schedule (length (servers st)) (started prt pth rg st1)))
       = Some (length (servers st))) /\
  (startable pth = false -> startServer prt pth rg st = None).
Proof.
  intros Hopen. split; [apply startable_iff |]. split.
  - intros Hok.
    pose proof (startServer_runs prt pth rg st Hopen Hok) as Hst1.
    destruct Hst1 as (st1 & Hlen & Hrun).
    exists st1. split; [exact Hlen |]. split; [exact Hrun |].
    rewrite <- Hlen.
    split; [reflexivity |].
    split; [cbn [goroutines started]; apply in_or_app; right; left; reflexivity |].
    intros err Hl. exact (schedule_bind_failure prt pth rg st1 err Hl).
  - apply startServer_rejected.
Qed.

(** Starting keeps [currentServer] open, so servers can be started
    one after another. *)
Lemma started_current_open prt pth rg st : current_open (started prt pth rg st).
Proof.
  intros cur Hc. cbn [currentServer started] in Hc. inversion Hc; subst cur.
  exists {| httpServer := Some (built prt pth); port := prt; path := pth;
            registry := rg; stopChan_closed := false |}.
  split; [| reflexivity].
  cbn [servers started]. rewrite lookup_app_r by lia.
  rewrite Nat.sub_diag. reflexivity.
Qed.

Lemma initial_current_open : current_open initial.
Proof. intros cur Hc. discriminate Hc. Qed.

End ServerFacts.

(** ** What ends the process *)

Section ValidateFacts.
Import Options.
Context `{B : Backend} `{E : Env}.
Variable DefaultHistogramBuckets : list spec_float.
Variable NewRegistry : registry_state.

(** [Validate] stage by stage. *)
Lemma Validate_stages o w :
  Validate DefaultHistogramBuckets NewRegistry o w =
    (None,
     {| prefix := if String.eqb (prefix o) "" then getDefaultPrefix else prefix o;
        port := if (port o =? 0)%Z
                then (if (getPortFromEnv =? 0)%Z then DefaultHTTPPort else getPortFromEnv)
                else port o;
        path := if String.eqb (path o) "" then DefaultMetricsPath else path o;
        namespace := namespace o;
        subsystem := subsystem o;
        buckets := match buckets o with
                   | None => Some DefaultHistogramBuckets
                   | Some b => Some b
                   end;
        registry := match registry o with
                    | None => Some (fresh (dom (Store.registries w)))
                    | Some r => Some r
                    end |},
     match registry o with
     | None => Store.set_registries
                 (<[fresh (dom (Store.registries w)) := NewRegistry]>
                    (Store.registries w)) w
     | Some _ => w
     end).
Proof.
  unfold Validate.
  set (envPort := getPortFromEnv). set (defaultPrefix := getDefaultPrefix).
  clearbody envPort defaultPrefix.
  destruct o as [pre prt pth ns ss bk rg]. cbn.
  destruct (prt =? 0)%Z; [destruct (envPort =? 0)%Z eqn:Hg |]; cbn;
    try rewrite Hg; cbn;
    destruct (String.eqb pth ""); cbn; destruct bk; cbn; destruct rg; cbn;
    destruct (String.eqb pre ""); reflexivity.
Qed.

End ValidateFacts.

(** ** Dial and MustDial *)

Section DriverFacts.
Import Options Driver.
Context `{B : Backend} `{E : Env} `{N : Server.Net}.
Variable DefaultHistogramBuckets : list spec_float.
Variable NewRegistry : registry_state.
Variable InDev : bool.

(** [Dial] up to the start of the server: the options are validated,
    the store and its prefixed child are on the heap. *)
Lemma Dial_runs opts P err o w :
  Validate DefaultHistogramBuckets NewRegistry
    (apply_options opts (dial_defaults DefaultHistogramBuckets)) (world P)
  = (err, o, w) ->
  exists r d w2,
    registry o = Some r /\
    Dial DefaultHistogramBuckets NewRegistry InDev opts P
    = match Server.startServer (port o) (path o) r (server P) with
      | None => None
      | Some (Some e, srv) =>
          Some (Some e,
                {| world := w2; server := srv; driver := Some d;
                   log := (log P ++ [LogError [lib_field] e])%list |})
      | Some (None, srv) =>
          Some (None,
                {| world := w2; server := srv; driver := Some d;
                   log := (log P ++ [LogInfo [lib_field; FInt "port" (port o);
                                              FStr "path" (path o);
                                              FStr "prefix" (prefix o)]
                                             "started"])%list |})
      end.
Proof.
  intros HV. unfold Dial. cbv zeta. rewrite HV.
  assert (Herr : err = None)
    by (rewrite Validate_stages in HV; now inversion HV).
  assert (Hr : exists r, registry o = Some r).
  { rewrite Validate_stages in HV. inversion HV. cbn [registry].
    destruct (registry (apply_options opts (dial_defaults DefaultHistogramBuckets)));
      eauto. }
  rewrite Herr.
  destruct Hr as [r Hr]. rewrite Hr.
  unfold Store.newPrometheus, Store.alloc.
  set (s := {| Store.prefix := ""; Store.namespace := namespace o |}).
  set (w1 := Store.set_stores (Store.stores w ++ [s]) w).
  assert (Hs : Store.stores w1 !! length (Store.stores w) = Some s).
  { subst w1. cbn [Store.stores Store.set_stores].
    rewrite lookup_app_r by lia. now rewrite Nat.sub_diag. }
  destruct (WithPrefix_returns (length (Store.stores w)) (prefix o) w1 s Hs)
    as (d & w2 & Hrun).
  rewrite Hrun. exists r, d, w2. split; reflexivity.
Qed.

(** [Dial] has no error to return: [Validate] and [start] return
    nil. *)
Lemma Dial_never_fails opts P e P' :
  Dial DefaultHistogramBuckets NewRegistry InDev opts P <> Some (Some e, P').
Proof.
  destruct (Validate DefaultHistogramBuckets NewRegistry
              (apply_options opts (dial_defaults DefaultHistogramBuckets)) (world P))
    as [[err o] w] eqn:HV.
  destruct (Dial_runs opts P err o w HV) as (r & d & w2 & _ & ->).
  destruct (Server.startServer (port o) (path o) r (server P))
    as [[[e' |] srv] |] eqn:Hstart; try discriminate.
  now apply startServer_nil in Hstart.
Qed.

(** With that, the loop of [MustDial] is left in its first round. *)
Lemma MustDial_one_round fuel opts P :
  MustDial DefaultHistogramBuckets NewRegistry InDev (S fuel) opts P
  = match Dial DefaultHistogramBuckets NewRegistry InDev opts P with
    | Some (_, P') => Some (Dialing.Returned, [Dialing.EvDial None], P')
    | None => None
    end.
Proof.
  unfold MustDial. cbn [again].
  destruct (Dial DefaultHistogramBuckets NewRegistry InDev opts P)
    as [[[e |] P'] |] eqn:HD; try reflexivity.
  now apply Dial_never_fails in HD.
Qed.

End DriverFacts.

Section DialingClaims.
Import Options Driver.

(** C3, the last clause fails: [MustDial] with the metrics path
    ["/health"], which is the pattern of the liveness handler, ends
    the process by the panic of the mux: no call of [Dial] has failed,
    no retry was made and no fatal entry is logged. *)
Lemma MustDial_panics_on_health_path :
  @Dial accepting_backend sample_env Lifecycle.open_net [] tt false
    [MetricsPath "/health"] (fresh_process (root_world accepting_backend tt)) = None /\
  @MustDial accepting_backend sample_env Lifecycle.open_net [] tt false 12
    [MetricsPath "/health"] (fresh_process (root_world accepting_backend tt)) = None.
Proof. split; vm_compute; reflexivity. Qed.

(** C3, amended: for every option list, [MustDial] calls [Dial].
    Whatever [Dial] returned, the loop would sleep one second after a
    failed call and call again, with at most 11 further calls after the
    first, and would end the process with a fatal log entry exactly
    when the first call and all 11 further calls have failed.  [Dial]
    as it is written never returns an error, so [MustDial] makes no
    further call at all, which is within 10, and logs no fatal entry:
    it returns after its one call of [Dial], or that call panics.  The
    panic is another path that ends the process: it is taken when the
    mux rejects the metrics path, and not taken on a path that the mux
    takes when the current server, if there is one, has not been
    stopped. *)
Theorem MustDial_retries `{B : Backend} `{E : Env} `{N : Server.Net}
    (DefaultHistogramBuckets : list spec_float) (NewRegistry : registry_state)
    (InDev : bool) (answers : nat -> option error) fuel opts P :
  (12 <= fuel)%nat ->
  (exists o tr,
      Dialing.MustDial answers fuel = (o, tr) /\
      o <> Dialing.OutOfFuel /\
      (1 <= Dialing.attempts tr)%nat /\
      (Dialing.additional_attempts tr <= 11)%nat /\
      Dialing.sleeps tr = Dialing.additional_attempts tr /\
      Dialing.pauses_one_second tr /\
      (o = Dialing.Exited <-> forall i, (i < 12)%nat -> answers i <> None) /\
      (o = Dialing.Exited ->
       Dialing.additional_attempts tr = 11%nat /\ Dialing.fatals tr = 1%nat) /\
      (o = Dialing.Returned -> Dialing.fatals tr = 0%nat)) /\
  (forall e P', Dial DefaultHistogramBuckets NewRegistry InDev opts P
                <> Some (Some e, P')) /\
  (MustDial DefaultHistogramBuckets NewRegistry InDev fuel opts P = None \/
   exists P',
     Dial DefaultHistogramBuckets NewRegistry InDev opts P = Some (None, P') /\
     MustDial DefaultHistogramBuckets NewRegistry InDev fuel opts P
     = Some (Dialing.Returned, [Dialing.EvDial None], P') /\
     Dialing.additional_attempts [Dialing.EvDial None] = 0%nat /\
     Dialing.sleeps [Dialing.EvDial None] = 0%nat /\
     Dialing.fatals [Dialing.EvDial None] = 0%nat) /\
  (forall err o w,
      Validate DefaultHistogramBuckets NewRegistry
        (apply_options opts (dial_defaults DefaultHistogramBuckets)) (world P)
      = (err, o, w) ->
      (Server.startable (path o) = false ->
       MustDial DefaultHistogramBuckets NewRegistry InDev fuel opts P = None) /\
      (Server.startable (path o) = true ->
       Server.current_open (server P) ->
       exists P',
         MustDial DefaultHistogramBuckets NewRegistry InDev fuel opts P
         = Some (Dialing.Returned, [Dialing.EvDial None], P'))).
Proof.
  intros Hfuel.
  destruct fuel as [| fuel']; [lia |].
  split; [| split; [| split]].
  - destruct (Dialing.MustDial answers 12) as [o tr] eqn:Hrun.
    destruct (again_run answers 12 0 eq_refl ltac:(lia) o tr Hrun)
      as (Ho & Hatt & Hret & Hexit & Hpause & Hiff).
    exists o, tr.
    split.
    { replace (S fuel') with (12 + (S fuel' - 12))%nat by lia.
      now apply again_fuel_mono. }
    assert (Hone : (Dialing.sleeps tr + 1 = Dialing.attempts tr)%nat).
    { destruct o; [apply Hret | apply Hexit | congruence]; reflexivity. }
    unfold Dialing.additional_attempts.
    split; [exact Ho |]. split; [lia |]. split; [lia |]. split; [lia |].
    split; [exact Hpause |].
    split.
    { rewrite Hiff. split; intros Hall i Hi; apply Hall; lia. }
    split.
    { intros He. destruct (Hexit He) as (? & ? & ?). split; [lia | assumption]. }
    intros Hr. now destruct (Hret Hr).
  - intros e P'. apply Dial_never_fails.
  - rewrite MustDial_one_round.
    destruct (Dial DefaultHistogramBuckets NewRegistry InDev opts P)
      as [[[e |] P'] |] eqn:HD; [| | now left].
    + now apply Dial_never_fails in HD.
    + right. exists P'. repeat split; reflexivity.
  - intros err o w HV. rewrite MustDial_one_round.
    destruct (Dial_runs DefaultHistogramBuckets NewRegistry InDev opts P err o w HV)
      as (r & d & w2 & _ & ->).
    split.
    + intros Hno. now rewrite startServer_rejected.
    + intros Hok Hopen.
      destruct (startServer_runs (port o) (path o) r (server P) Hopen Hok)
        as (st1 & _ & ->).
      eexists. reflexivity.
Qed.

Lemma MustDial_retries_witness :
  (12 <= 12)%nat /\
  (exists o tr, Dialing.MustDial Dialing.never 12 = (o, tr) /\ o <> Dialing.OutOfFuel) /\
  exists P',
    @MustDial accepting_backend sample_env Lifecycle.open_net [] tt false 12
      [] (fresh_process (root_world accepting_backend tt))
    = Some (Dialing.Returned, [Dialing.EvDial None], P').
Proof.
  split; [lia |].
  destruct (@MustDial_retries accepting_backend sample_env Lifecycle.open_net
              [] tt false Dialing.never 12 []
              (fresh_process (root_world accepting_backend tt)) ltac:(lia))
    as ((o & tr & Hrun & Ho & _) & _ & _ & Hpath).
  split; [exists o, tr; split; assumption |].
  destruct (@Validate accepting_backend sample_env [] tt
              (@apply_options [] (@dial_defaults sample_env []))
              (world (fresh_process (root_world accepting_backend tt))))
    as [[err o'] w'] eqn:HV.
  destruct (Hpath err o' w' eq_refl) as [_ Hret].
  apply Hret.
  - rewrite (@Validate_stages accepting_backend sample_env [] tt) in HV.
    inversion HV. reflexivity.
  - exact initial_current_open.
Defined.

End DialingClaims.

(** ** The theorems at work on concrete stores and servers *)

Section Instances.
Import Store.




Lemma Counter_adds_sum_witness :
  exists w2,
    @Counter accepting_backend 0 "requests" [2; 3]%Z (root_world accepting_backend tt)
    = Some (tt, w2) /\
    calls w2 = [(0, Add (Float64.of_int 5))].
Proof.
  destruct (@Counter_adds_sum accepting_backend 0 "requests" [2; 3]%Z
              (root_world accepting_backend tt) root_store tt)
    as (h & w1 & w2 & Hget & Hrun & Hcalls & _); try reflexivity.
  exists w2. split; [exact Hrun |].
  rewrite Hcalls. vm_compute in Hget. inversion Hget. reflexivity.
Defined.

Lemma Time_observes_seconds_witness :
  exists w2,
    @Time accepting_backend 0 "latency" 1500000 (root_world accepting_backend tt)
    = Some (tt, w2) /\
    calls w2 = [(0, Observe (Float64.div (Float64.of_int 1500000)
                                         (Float64.of_int 1000000000)))].
Proof.
  destruct (proj1 (@Time_observes_seconds accepting_backend 0 "latency" 1500000
                     (root_world accepting_backend tt) root_store tt
                     eq_refl eq_refl))
    as (h & w1 & w2 & Hget & Hrun & Hcalls); [right; reflexivity |].
  exists w2. split; [exact Hrun |].
  rewrite Hcalls. vm_compute in Hget. inversion Hget. reflexivity.
Defined.

Lemma WithPrefix_referentially_stable_witness :
  exists a b w1 w2,
    @WithPrefix accepting_backend 0 "api" (root_world accepting_backend tt)
    = Some (a, w1) /\
    @WithPrefix accepting_backend 0 "api." w1 = Some (b, w2) /\
    a <> b /\
    @cached_store accepting_backend 0 "api" a w2 /\
    @cached_store accepting_backend 0 "api." b w2.
Proof.
  destruct (@WithPrefix_referentially_stable accepting_backend 0
              (root_world accepting_backend tt) root_store eq_refl)
    as [_ Hdistinct].
  destruct (Hdistinct (@root_world_prefixes_ok accepting_backend tt)) as [_ Hapi].
  exact Hapi.
Defined.

Lemma sanitizeName_empty_witness :
  prefix root_store = "" /\ buildMetricName root_store "" = "".
Proof.
  split; [reflexivity |].
  apply (proj1 (proj2 sanitizeName_empty)). reflexivity.
Defined.

Lemma startServer_returns_nil_witness :
  Server.current_open Server.initial /\
  exists st1,
    @Server.startServer Server.refusing_net 2112 "/metrics" 0 Server.initial
    = Some (None, Server.started 2112 "/metrics" 0 st1).
Proof.
  split; [exact initial_current_open |].
  destruct (@startServer_returns_nil Server.refusing_net 2112%Z "/metrics" 0
              Server.initial initial_current_open)
    as (_ & Hstart & _).
  destruct (Hstart eq_refl) as (st1 & _ & Hrun & _).
  exists st1. exact Hrun.
Defined.

End Instances.

(* ===================================================================== *)
(** * Part III. Further properties of the package                         *)
(* ===================================================================== *)

(** ** Metric names *)

Section Names.

Lemma all_name_chars_app a b :
  all_name_chars (a ++ b) = all_name_chars a && all_name_chars b.
Proof.
  induction a as [| c a IH]; simpl; [reflexivity |].
  now rewrite IH, andb_assoc.
Qed.

Lemma matches_identifier_all s :
  matches_identifier s = true -> all_name_chars s = true.
Proof.
  destruct s as [| c rest]; simpl; [discriminate |].
  intros [Hc Hrest]%andb_true_iff.
  now rewrite (name_start_name_char c Hc), Hrest.
Qed.

Lemma matches_identifier_start s :
  matches_identifier s = true -> startsWithInvalid s = false.
Proof.
  destruct s as [| c rest]; simpl; [discriminate |].
  intros [Hc _]%andb_true_iff. now rewrite Hc.
Qed.

(** The shape the sanitizer gives, on a string that is not empty, is
    the grammar of identifiers. *)
Lemma shape_matches_identifier s :
  s <> "" -> all_name_chars s = true -> startsWithInvalid s = false ->
  matches_identifier s = true.
Proof.
  destruct s as [| c rest]; [congruence |]. simpl.
  intros _ [_ Hrest]%andb_true_iff Hstart.
  rewrite Hrest. now apply negb_false_iff in Hstart as ->.
Qed.

Lemma matches_identifier_app a b :
  matches_identifier a = true -> all_name_chars b = true ->
  matches_identifier (a ++ b) = true.
Proof.
  destruct a as [| c a]; simpl; [discriminate |].
  intros [Hc Ha]%andb_true_iff Hb.
  now rewrite Hc, all_name_chars_app, Ha, Hb.
Qed.

(** X1: the names the sanitizer leaves as they are are the empty name
    and the identifiers of the grammar, and no others. *)
Theorem sanitizeName_fixed_points s :
  sanitizeName s = s <-> s = "" \/ matches_identifier s = true.
Proof.
  split.
  - intros Hfix. destruct s as [| c rest]; [left; reflexivity | right].
    destruct (sanitizeName_shape (String c rest)) as [Hall Hstart].
    rewrite Hfix in Hall, Hstart.
    now apply shape_matches_identifier.
  - intros [-> | Hm]; [reflexivity |].
    apply sanitizeName_fixed;
      [now apply matches_identifier_all | now apply matches_identifier_start].
Qed.

(** X2: the full metric name that a store builds is an identifier of
    the grammar as soon as the store's prefix or the local name is not
    empty. *)
Theorem buildMetricName_identifier p name :
  Store.prefix p <> "" \/ name <> "" ->
  matches_identifier (Store.buildMetricName p name) = true.
Proof.
  intros Hne. unfold Store.buildMetricName.
  destruct (sanitizeName_shape name) as [Hall Hstart].
  destruct (String.eqb (Store.prefix p) "") eqn:Hp; simpl.
  - apply String.eqb_eq in Hp.
    destruct Hne as [Hne | Hne]; [congruence |].
    apply shape_matches_identifier; [now apply sanitizeName_nonempty | assumption ..].
  - apply String.eqb_neq in Hp.
    destruct (sanitizeName_shape (Store.prefix p)) as [Hallp Hstartp].
    apply matches_identifier_app; [| exact Hall].
    apply shape_matches_identifier; [now apply sanitizeName_nonempty | assumption ..].
Qed.

Lemma buildMetricName_identifier_witness :
  (Store.prefix root_store <> "" \/ "123start" <> "") /\
  matches_identifier (Store.buildMetricName root_store "123start") = true.
Proof.
  split; [right; discriminate |].
  apply (buildMetricName_identifier root_store "123start"). right. discriminate.
Defined.

End Names.

(** ** The store: what is cached and what is left alone *)

Section StoreMore.
Context `{B : Backend}.
Import Store.

Implicit Types (w : World) (s : Prometheus) (k : Kind) (name : string).

Lemma handles_set_handle_other k k' name name' h s :
  (k', name') <> (k, name) ->
  handles k' (set_handle k name h s) !! name' = handles k' s !! name'.
Proof.
  intros Hne. destruct k, k'; simpl; try reflexivity;
    apply lookup_insert_ne; congruence.
Qed.

(** The three ways a call of [getOrCreate] can end. *)
Lemma getOrCreate_cases k p name w h w' :
  getOrCreate k p name w = Some (h, w') ->
  exists s, stores w !! p = Some s /\
    ((handles k s !! name = Some h /\ w' = w) \/
     (handles k s !! name = None /\
      exists reg, registries w !! registry_ptr s = Some reg /\
        ((stores w' = <[p := set_handle k name h s]> (stores w) /\
          log w' = log w /\
          (answer k s name reg w = None /\ h = next_collector w \/
           exists err, answer k s name reg w = Some err /\
                       adoptable k err = Some h)) \/
         (stores w' = stores w /\ h = next_collector w /\
          exists err, answer k s name reg w = Some err /\
                      adoptable k err = None /\
                      log w' = (log w ++ [LogError [lib_field;
                                   FStr "name" (buildMetricName s name)] err])%list)))).
Proof.
  intros H.
  destruct (getOrCreate_inv k p name w h w' H)
    as (s & Hp & [[Hh ->] | [Hh [reg Hr]]]); exists s; (split; [exact Hp |]).
  - left. split; [exact Hh | reflexivity].
  - right. split; [exact Hh |]. exists reg. split; [exact Hr |].
    rewrite (getOrCreate_miss k p name w s reg Hp Hh Hr) in H.
    destruct (answer k s name reg w) as [err |] eqn:Ha.
    + destruct (adoptable k err) as [existing |] eqn:Had; inversion H; subst.
      * left. split; [reflexivity |]. split; [reflexivity |]. right. eauto.
      * right. split; [reflexivity |]. split; [reflexivity |]. eauto.
    + inversion H; subst. left. split; [reflexivity |]. split; [reflexivity |].
      left. split; reflexivity.
Qed.

(** What a call caches under its name is the handle it returns. *)
Lemma getOrCreate_cached_is_returned k p name w h w' s' h' :
  getOrCreate k p name w = Some (h, w') ->
  stores w' !! p = Some s' ->
  handles k s' !! name = Some h' ->
  h' = h.
Proof.
  intros H Hp' Hh'.
  destruct (getOrCreate_cases k p name w h w' H)
    as (s & Hp & [[Hh ->] | (Hh & reg & Hr & [(Hs & _) | (Hs & _)])]).
  - congruence.
  - rewrite Hs, (stores_set_lookup p s _ w Hp) in Hp'.
    inversion Hp'; subst s'. rewrite handles_set_handle in Hh'. congruence.
  - rewrite Hs in Hp'. congruence.
Qed.


(** X4: a call of [getOrCreate] never replaces or drops a cached
    handle, of whatever store, kind and name, and the one entry it may
    add is the one it was called for, holding the handle it returns. *)
Theorem getOrCreate_frame k p name w h w' :
  getOrCreate k p name w = Some (h, w') ->
  length (stores w') = length (stores w) /\
  (forall p' s' k' name' h0,
      stores w !! p' = Some s' ->
      handles k' s' !! name' = Some h0 ->
      exists s'', stores w' !! p' = Some s'' /\
                  handles k' s'' !! name' = Some h0) /\
  (forall p' s'' k' name' h1,
      stores w' !! p' = Some s'' ->
      handles k' s'' !! name' = Some h1 ->
      ((k', p', name') = (k, p, name) /\ h1 = h) \/
      exists s', stores w !! p' = Some s' /\ handles k' s' !! name' = Some h1).
Proof.
  intros H.
  destruct (getOrCreate_cases k p name w h w' H)
    as (s & Hp & [[Hh ->] | (Hh & reg & Hr & [(Hs & _) | (Hs & _)])]).
  - split; [reflexivity |]. split; eauto.
  - rewrite Hs. split; [apply length_insert |]. split.
    + intros p' s' k' name' h0 Hp' Hh'.
      destruct (decide (p = p')) as [<- | Hne].
      * rewrite (stores_set_lookup p s _ w Hp).
        eexists. split; [reflexivity |].
        assert (s' = s) by congruence. subst s'.
        rewrite handles_set_handle_other; [exact Hh' |].
        intros E. inversion E; subst. congruence.
      * rewrite list_lookup_insert_ne by assumption. eauto.
    + intros p' s'' k' name' h1 Hp' Hh'.
      destruct (decide (p = p')) as [<- | Hne].
      * rewrite (stores_set_lookup p s _ w Hp) in Hp'. inversion Hp'; subst s''.
        destruct (decide ((k', name') = (k, name))) as [E | E].
        -- inversion E; subst. rewrite handles_set_handle in Hh'.
           left. split; [reflexivity | congruence].
        -- rewrite handles_set_handle_other in Hh' by assumption.
           right. eauto.
      * rewrite list_lookup_insert_ne in Hp' by assumption. right. eauto.
  - rewrite Hs. split; [reflexivity |]. split; eauto.
Qed.

End StoreMore.

(** ** The store: calls on handles *)

Section StoreCalls.
Context `{B : Backend}.
Import Store.

Implicit Types (w : World) (s : Prometheus) (k : Kind) (name : string).

(** A store that is on the heap stays there, with its registry. *)
Lemma getOrCreate_keeps_store k p name w h w' p' s' reg' :
  getOrCreate k p name w = Some (h, w') ->
  stores w !! p' = Some s' ->
  registries w !! registry_ptr s' = Some reg' ->
  exists s'' reg'',
    stores w' !! p' = Some s'' /\
    registry_ptr s'' = registry_ptr s' /\
    registries w' !! registry_ptr s'' = Some reg''.
Proof.
  intros H Hp' Hr'.
  destruct (getOrCreate_inv k p name w h w' H)
    as (s & Hp & [[_ ->] | [Hh [reg Hr]]]); [eauto |].
  rewrite (getOrCreate_miss k p name w s reg Hp Hh Hr) in H.
  assert (Hreg : exists reg'',
             <[registry_ptr s := fst (Register reg (next_collector w) k
                                        (new_opts k s (buildMetricName s name)))]>
               (registries w) !! registry_ptr s' = Some reg'').
  { destruct (decide (registry_ptr s = registry_ptr s')) as [<- | Hne].
    - rewrite lookup_insert_eq. eauto.
    - rewrite lookup_insert_ne by assumption. eauto. }
  destruct Hreg as [reg'' Hreg].
  assert (Hins : forall x,
             exists s'', <[p := set_handle k name x s]> (stores w) !! p' = Some s'' /\
                         registry_ptr s'' = registry_ptr s').
  { intros x. destruct (decide (p = p')) as [<- | Hne].
    - rewrite (stores_set_lookup p s _ w Hp). eexists. split; [reflexivity |].
      assert (s' = s) by congruence. subst s'. destruct k; reflexivity.
    - rewrite list_lookup_insert_ne by assumption. eauto. }
  destruct (answer k s name reg w) as [err |];
    [destruct (adoptable k err) as [existing |] |]; inversion H; subst;
    cbn [stores registries set_stores add_log offered set_registries add_created].
  - destruct (Hins h) as (s'' & Hs'' & Hptr). exists s'', reg''.
    now rewrite Hptr.
  - exists s', reg''. auto.
  - destruct (Hins (next_collector w)) as (s'' & Hs'' & Hptr). exists s'', reg''.
    now rewrite Hptr.
Qed.

(** X5: two calls of [Counter] for a name that is cached after the
    first go to one and the same handle, in their order: the first
    adds its amount and the second adds its own. *)
Theorem Counter_twice_same_handle p name values1 values2 w w1 s1 h :
  Counter p name values1 w = Some (tt, w1) ->
  stores w1 !! p = Some s1 ->
  counters s1 !! name = Some h ->
  exists w2,
    Counter p name values2 w1 = Some (tt, w2) /\
    calls w2 = (calls w ++ [(h, Add (Float64.of_int (counter_value values1)));
                            (h, Add (Float64.of_int (counter_value values2)))])%list.
Proof.
  intros Hrun1 Hp1 Hh.
  unfold Counter, bind in Hrun1. unfold getOrCreateCounter in Hrun1.
  destruct (getOrCreate KCounter p name w) as [[h1 wa] |] eqn:Hget; [| discriminate].
  inversion Hrun1; subst w1. clear Hrun1.
  cbn [stores add_call] in Hp1.
  assert (h = h1)
    by exact (getOrCreate_cached_is_returned KCounter p name w h1 wa s1 h Hget Hp1 Hh).
  subst h1.
  assert (Hhit : getOrCreate KCounter p name
                   (add_call h (Add (Float64.of_int (counter_value values1))) wa)
                 = Some (h, add_call h (Add (Float64.of_int (counter_value values1))) wa))
    by (eapply getOrCreate_hit; [exact Hp1 | exact Hh]).
  eexists. split.
  - unfold Counter, bind. unfold getOrCreateCounter. rewrite Hhit. reflexivity.
  - cbn [calls add_call]. rewrite (getOrCreate_calls _ _ _ _ _ _ Hget).
    now rewrite <- app_assoc.
Qed.

(** X6: [Gauge(name, value)] makes one call, [Set(float64(value))],
    on the gauge for the name, and no other call. *)
Theorem Gauge_sets_value p name value w s reg :
  stores w !! p = Some s ->
  registries w !! registry_ptr s = Some reg ->
  exists h w1 w2,
    getOrCreateGauge p name w = Some (h, w1) /\
    Gauge p name value w = Some (tt, w2) /\
    calls w2 = (calls w ++ [(h, Set_ (Float64.of_int value))])%list /\
    log w2 = log w1 /\ stores w2 = stores w1.
Proof.
  intros Hp Hr.
  destruct (getOrCreate_returns KGauge p name w s reg Hp Hr) as (h & w1 & Hrun).
  exists h, w1, (add_call h (Set_ (Float64.of_int value)) w1).
  split; [exact Hrun |]. split.
  - unfold Gauge, bind. unfold getOrCreateGauge. rewrite Hrun. reflexivity.
  - cbn [calls log stores add_call].
    now rewrite (getOrCreate_calls _ _ _ _ _ _ Hrun).
Qed.

(** X7: [Timing] records after the measured function has run: a panic
    of the function leaves nothing recorded, and when it returns on a
    store that has the histogram for [name] cached or has strictly
    increasing buckets, its own calls come first and the one [Observe]
    of the elapsed time, in seconds, comes last. *)
Theorem Timing_observes_after p name (f : M unit) elapsed w :
  (f w = None -> Timing p name f elapsed w = None) /\
  (forall wf s reg,
      f w = Some (tt, wf) ->
      stores wf !! p = Some s ->
      registries wf !! registry_ptr s = Some reg ->
      is_Some (histograms s !! name) \/ buckets_increasing (buckets s) = true ->
      exists h w2,
        Timing p name f elapsed w = Some (tt, w2) /\
        calls w2 = (calls wf ++ [(h, Observe (Float64.div (Float64.of_int elapsed)
                                                          Float64.c1e9))])%list).
Proof.
  split.
  - intros Hf. unfold Timing, bind. now rewrite Hf.
  - intros wf s reg Hf Hp Hr Hok.
    destruct (getOrCreate_returns KHistogram p name wf s reg Hp Hr) as (h & w1 & Hrun).
    exists h, (add_call h (Observe (Float64.div (Float64.of_int elapsed) Float64.c1e9)) w1).
    split.
    + unfold Timing. unfold bind at 1. rewrite Hf.
      unfold Time, bind. rewrite (getOrCreateHistogram_runs p name wf s Hp Hok), Hrun.
      reflexivity.
    + cbn [calls add_call]. now rewrite (getOrCreate_calls _ _ _ _ _ _ Hrun).
Qed.

(** X8: two different names that sanitize alike are cached apart, yet
    the second is offered to the registry with the very options of the
    first; when the registry answers with the handle of the first, the
    second name gets that handle. *)
Theorem names_sanitizing_alike_share_handle k p name1 name2 w s reg :
  name1 <> name2 ->
  sanitizeName name1 = sanitizeName name2 ->
  stores w !! p = Some s ->
  handles k s !! name1 = None ->
  handles k s !! name2 = None ->
  registries w !! registry_ptr s = Some reg ->
  answer k s name1 reg w = None ->
  exists h1 w1 s1 reg1,
    getOrCreate k p name1 w = Some (h1, w1) /\
    stores w1 !! p = Some s1 /\
    handles k s1 !! name2 = None /\
    registries w1 !! registry_ptr s1 = Some reg1 /\
    new_opts k s1 (buildMetricName s1 name2) = new_opts k s (buildMetricName s name1) /\
    (forall new,
        answer k s1 name2 reg1 w1 = Some (AlreadyRegisteredError h1 new) ->
        implements h1 k = true ->
        exists w2, getOrCreate k p name2 w1 = Some (h1, w2)).
Proof.
  intros Hne Hsan Hp Hh1 Hh2 Hr Ha.
  pose proof (getOrCreate_miss k p name1 w s reg Hp Hh1 Hr) as Hrun.
  rewrite Ha in Hrun.
  set (h1 := next_collector w) in *.
  set (s1 := set_handle k name1 h1 s).
  assert (Hp1 : <[p := s1]> (stores w) !! p = Some s1)
    by (eapply stores_set_lookup, Hp).
  assert (Hh2' : handles k s1 !! name2 = None).
  { subst s1. rewrite handles_set_handle_other; [exact Hh2 |]. congruence. }
  assert (Hfields : prefix s1 = prefix s /\ namespace s1 = namespace s /\
                    subsystem s1 = subsystem s /\ buckets s1 = buckets s /\
                    registry_ptr s1 = registry_ptr s)
    by (subst s1; destruct k; repeat split; reflexivity).
  destruct Hfields as (Hpre & Hns & Hss & Hb & Hrp).
  eexists h1, _, s1, _. split; [exact Hrun |].
  split; [exact Hp1 |]. split; [exact Hh2' |].
  split.
  { cbn [registries set_stores offered set_registries]. rewrite Hrp.
    apply lookup_insert_eq. }
  split.
  { unfold new_opts, buildMetricName. now rewrite Hpre, Hns, Hss, Hb, Hsan. }
  intros new Hans Himpl.
  eexists.
  erewrite getOrCreate_miss; [| exact Hp1 | exact Hh2' | ].
  2: { cbn [registries set_stores offered set_registries]. rewrite Hrp.
       apply lookup_insert_eq. }
  rewrite Hans. cbn [adoptable]. rewrite Himpl. reflexivity.
Qed.

End StoreCalls.

(** ** Stores derived by prefix *)

Section PrefixMore.
Context `{B : Backend}.
Import Store.

Implicit Types (w : World) (s : Prometheus) (q : string).

Lemma hasSuffixDot_app_dot q : hasSuffixDot (q ++ ".") = true.
Proof.
  induction q as [| c q IH]; [reflexivity |].
  change (String c q ++ ".") with (String c (q ++ ".")).
  cbn [hasSuffixDot]. destruct (q ++ ".") eqn:E; [| exact IH].
  destruct q; discriminate.
Qed.

Lemma child_store_prefix_dotted q s : hasSuffixDot (prefix (child_store q s)) = true.
Proof.
  cbn [prefix child_store].
  destruct (hasSuffixDot q) eqn:E; [exact E | apply hasSuffixDot_app_dot].
Qed.

Lemma not_cached_cases s q :
  (exists c, prefixes s !! q = Some (Some c)) \/
  (forall c, prefixes s !! q <> Some (Some c)).
Proof.
  destruct (prefixes s !! q) as [[c |] |]; [left; eauto | right | right]; congruence.
Qed.

(** The heap after a miss: the parent with one more cache entry, the
    child at the end, everything else in place. *)
Lemma WithPrefix_miss_child p q w s :
  stores w !! p = Some s ->
  <[p := set_prefix q (length (stores w)) s]>
    (stores w ++ [child_store q s])%list !! length (stores w)
  = Some (child_store q s).
Proof.
  intros Hp. pose proof (lookup_lt_Some _ _ _ Hp) as Hlt.
  rewrite list_lookup_insert_ne by lia.
  rewrite lookup_app_r by lia. now rewrite Nat.sub_diag.
Qed.

(** X9: a store that [WithPrefix] has to build is a new struct on the
    heap; it shares the registry, the namespace, the subsystem and the
    buckets of its parent, has no handle and no derived store of its
    own yet, and its prefix is the requested one, with a dot added
    unless it ends in one already. *)
Theorem WithPrefix_builds_child p q w s :
  stores w !! p = Some s ->
  (forall c, prefixes s !! q <> Some (Some c)) ->
  exists a w1 child,
    WithPrefix p q w = Some (a, w1) /\
    stores w !! a = None /\
    stores w1 !! a = Some child /\
    registry_ptr child = registry_ptr s /\
    namespace child = namespace s /\
    subsystem child = subsystem s /\
    buckets child = buckets s /\
    counters child = ∅ /\ gauges child = ∅ /\ histograms child = ∅ /\
    prefixes child = ∅ /\
    prefix child = (if hasSuffixDot q then q else q ++ ".") /\
    hasSuffixDot (prefix child) = true.
Proof.
  intros Hp Hq.
  eexists (length (stores w)), _, (child_store q s).
  split; [exact (WithPrefix_miss p q w s Hp Hq) |].
  split; [apply lookup_ge_None; lia |].
  split; [cbn [stores set_stores]; exact (WithPrefix_miss_child p q w s Hp) |].
  repeat (split; [reflexivity |]).
  split; [cbn [prefix child_store]; now destruct (hasSuffixDot q) |].
  apply child_store_prefix_dotted.
Qed.

(** X10: a prefix without the final dot and the same prefix with it
    are two cache keys and give two stores, but the two stores have the
    same prefix and build the same metric name for every local name. *)
Theorem WithPrefix_dot_makes_twin p q w s :
  stores w !! p = Some s ->
  hasSuffixDot q = false ->
  (forall c, prefixes s !! q <> Some (Some c)) ->
  (forall c, prefixes s !! (q ++ ".") <> Some (Some c)) ->
  exists a b w1 w2 sa sb,
    WithPrefix p q w = Some (a, w1) /\
    WithPrefix p (q ++ ".") w1 = Some (b, w2) /\
    a <> b /\
    stores w2 !! a = Some sa /\
    stores w2 !! b = Some sb /\
    prefix sa = prefix sb /\
    forall name, buildMetricName sa name = buildMetricName sb name.
Proof.
  intros Hp Hdot Hq Hqd.
  pose proof (lookup_lt_Some _ _ _ Hp) as Hlt.
  assert (Hne : q <> q ++ ".").
  { intros E. pose proof (hasSuffixDot_app_dot q) as Hd. rewrite <- E in Hd. congruence. }
  pose proof (WithPrefix_miss p q w s Hp Hq) as Hrun1.
  pose proof (WithPrefix_miss_parent p q w s Hp) as Hp1.
  set (s1 := set_prefix q (length (stores w)) s) in *.
  set (w1 := set_stores _ w) in Hrun1.
  assert (Hq2 : forall c, prefixes s1 !! (q ++ ".") <> Some (Some c)).
  { intros c. subst s1. cbn [prefixes set_prefix].
    rewrite lookup_insert_ne by assumption. apply Hqd. }
  pose proof (WithPrefix_miss p (q ++ ".") w1 s1 Hp1 Hq2) as Hrun2.
  assert (Hlen1 : length (stores w1) = S (length (stores w))).
  { subst w1. cbn [stores set_stores]. rewrite length_insert, length_app. simpl. lia. }
  eexists (length (stores w)), (length (stores w1)), w1, _,
    (child_store q s), (child_store (q ++ ".") s1).
  split; [exact Hrun1 |]. split; [exact Hrun2 |]. split; [lia |].
  cbn [stores set_stores].
  split.
  { rewrite list_lookup_insert_ne by lia.
    rewrite lookup_app_l by lia.
    subst w1. cbn [stores set_stores]. exact (WithPrefix_miss_child p q w s Hp). }
  split; [exact (WithPrefix_miss_child p (q ++ ".") w1 s1 Hp1) |].
  assert (Hpre : prefix (child_store q s) = prefix (child_store (q ++ ".") s1)).
  { cbn [prefix child_store]. now rewrite Hdot, hasSuffixDot_app_dot. }
  split; [exact Hpre |].
  intros name. unfold buildMetricName. now rewrite Hpre.
Qed.

(** X11: the store derived for the empty prefix has the prefix ["."],
    so that every metric name it builds is the sanitized local name
    with an underscore in front. *)
Theorem WithPrefix_empty_prefix p w s :
  stores w !! p = Some s ->
  (forall c, prefixes s !! "" <> Some (Some c)) ->
  exists a w1 child,
    WithPrefix p "" w = Some (a, w1) /\
    stores w1 !! a = Some child /\
    prefix child = "." /\
    forall name, buildMetricName child name = String "_" (sanitizeName name).
Proof.
  intros Hp Hq.
  eexists (length (stores w)), _, (child_store "" s).
  split; [exact (WithPrefix_miss p "" w s Hp Hq) |].
  split; [cbn [stores set_stores]; exact (WithPrefix_miss_child p "" w s Hp) |].
  split; reflexivity.
Qed.

(** X12: [WithPrefix] registers nothing, logs nothing and calls no
    handle; it takes no store from the heap, keeps the handles and the
    settings of every store, and keeps every entry of every prefix
    cache. *)
Theorem WithPrefix_frame p q w a w1 :
  WithPrefix p q w = Some (a, w1) ->
  registries w1 = registries w /\
  created w1 = created w /\
  next_collector w1 = next_collector w /\
  log w1 = log w /\
  calls w1 = calls w /\
  forall p' s',
    stores w !! p' = Some s' ->
    exists s'',
      stores w1 !! p' = Some s'' /\
      counters s'' = counters s' /\ gauges s'' = gauges s' /\
      histograms s'' = histograms s' /\
      prefix s'' = prefix s' /\ namespace s'' = namespace s' /\
      subsystem s'' = subsystem s' /\ buckets s'' = buckets s' /\
      registry_ptr s'' = registry_ptr s' /\
      forall key c, prefixes s' !! key = Some (Some c) ->
                    prefixes s'' !! key = Some (Some c).
Proof.
  intros Hrun.
  destruct (stores w !! p) as [s |] eqn:Hp;
    [| unfold WithPrefix, bind, load in Hrun; rewrite Hp in Hrun; discriminate].
  destruct (not_cached_cases s q) as [[c Hq] | Hq].
  - rewrite (WithPrefix_hit p q w s c Hp Hq) in Hrun. inversion Hrun; subst.
    repeat (split; [reflexivity |]).
    intros p' s' Hp'. exists s'. repeat (split; [assumption || reflexivity |]). auto.
  - rewrite (WithPrefix_miss p q w s Hp Hq) in Hrun. inversion Hrun; subst a w1.
    repeat (split; [reflexivity |]).
    intros p' s' Hp'. pose proof (lookup_lt_Some _ _ _ Hp') as Hlt.
    cbn [stores set_stores].
    destruct (decide (p = p')) as [<- | Hne].
    + rewrite (WithPrefix_miss_parent p q w s Hp).
      assert (s' = s) by congruence. subst s'.
      eexists. split; [reflexivity |].
      repeat (split; [reflexivity |]).
      intros key c Hk. cbn [prefixes set_prefix].
      destruct (decide (q = key)) as [<- | Hqk].
      * exfalso. exact (Hq c Hk).
      * now rewrite lookup_insert_ne.
    + rewrite list_lookup_insert_ne by assumption.
      rewrite lookup_app_l by assumption.
      exists s'. repeat (split; [assumption || reflexivity |]). auto.
Qed.

(** X13: [AppendSuffix] caches in the receiver's own cache, under the
    receiver's prefix followed by the suffix: a second call returns the
    same store, and a store it has to build has that key as its prefix,
    dotted at the end. *)
Theorem AppendSuffix_stable p suffix w s :
  stores w !! p = Some s ->
  (exists a w1,
      AppendSuffix p suffix w = Some (a, w1) /\
      AppendSuffix p suffix w1 = Some (a, w1) /\
      exists s1, stores w1 !! p = Some s1 /\
                 prefixes s1 !! (prefix s ++ suffix) = Some (Some a)) /\
  ((forall c, prefixes s !! (prefix s ++ suffix) <> Some (Some c)) ->
   exists a w1 child,
     AppendSuffix p suffix w = Some (a, w1) /\
     stores w1 !! a = Some child /\
     prefix child = (if hasSuffixDot (prefix s ++ suffix)
                     then prefix s ++ suffix else (prefix s ++ suffix) ++ ".")).
Proof.
  intros Hp.
  assert (Hunfold : forall w0 s0, stores w0 !! p = Some s0 ->
             AppendSuffix p suffix w0 = WithPrefix p (prefix s0 ++ suffix) w0).
  { intros w0 s0 Hp0. unfold AppendSuffix. now rewrite (bind_load p s0 w0 _ Hp0). }
  split.
  - rewrite (Hunfold w s Hp).
    destruct (not_cached_cases s (prefix s ++ suffix)) as [[c Hq] | Hq].
    + exists c, w. split; [eapply WithPrefix_hit; eauto |].
      split; [rewrite (Hunfold w s Hp); eapply WithPrefix_hit; eauto |]. eauto.
    + eexists _, _. split; [exact (WithPrefix_miss p _ w s Hp Hq) |].
      pose proof (WithPrefix_miss_parent p (prefix s ++ suffix) w s Hp) as Hp1.
      split.
      * erewrite Hunfold by (cbn [stores set_stores]; exact Hp1).
        eapply WithPrefix_hit; [cbn [stores set_stores]; exact Hp1 |].
        cbn [prefix prefixes set_prefix]. apply lookup_insert_eq.
      * eexists. split; [cbn [stores set_stores]; exact Hp1 |].
        cbn [prefixes set_prefix]. apply lookup_insert_eq.
  - intros Hq. rewrite (Hunfold w s Hp).
    eexists (length (stores w)), _, (child_store (prefix s ++ suffix) s).
    split; [exact (WithPrefix_miss p _ w s Hp Hq) |].
    split; [cbn [stores set_stores];
            exact (WithPrefix_miss_child p _ w s Hp) |].
    cbn [prefix child_store]. now destruct (hasSuffixDot (prefix s ++ suffix)).
Qed.

End PrefixMore.

(** ** The server: stopping, replacing, scheduling *)

Section ServerMore.
Import Server Lifecycle.
Context `{N : Net}.

Implicit Types (st : State) (a : nat).

(** The struct of a server once [stop] has run on it. *)
Lemma stop_marks a st r st' :
  stop a st = Some (r, st') ->
  exists s s',
    servers st !! a = Some s /\
    stopChan_closed s = false /\
    servers st' !! a = Some s' /\
    stopChan_closed s' = true /\
    port s' = port s /\ path s' = path s /\ registry s' = registry s /\
    length (servers st') = length (servers st) /\
    currentServer st' = currentServer st /\
    (forall b, b <> a -> servers st' !! b = servers st !! b) /\
    (httpServer s = None -> httpServer s' = None /\ r = None) /\
    (forall h, httpServer s = Some h ->
       r = shutdown (Addr h) /\
       exists h', httpServer s' = Some h' /\ inShutdown h' = true /\
                  Addr h' = Addr h /\ Handler h' = Handler h).
Proof.
  unfold stop. intros H.
  destruct (servers st !! a) as [s |] eqn:Ha; [| discriminate].
  destruct (stopChan_closed s) eqn:Hc; [discriminate |].
  pose proof (lookup_lt_Some _ _ _ Ha) as Hlt.
  exists s.
  destruct (httpServer s) as [h |] eqn:Hh.
  - set (s' := {| httpServer := Some _; port := port s; path := path s;
                  registry := registry s; stopChan_closed := true |}) in H.
    exists s'.
    assert (Hfr : servers st' = <[a := s']> (servers st) /\
                  currentServer st' = currentServer st /\ r = shutdown (Addr h)).
    { destruct (shutdown (Addr h)) as [err |]; inversion H; subst.
      - repeat split.
      - destruct (wait_frame a (drop (is_serving a) (set_server a s' st))) as [-> ->].
        repeat split. }
    destruct Hfr as (Hs & Hcur & Hr). rewrite Hs, Hcur.
    split; [reflexivity |]. split; [exact Hc |].
    split; [now apply list_lookup_insert_eq |].
    split; [reflexivity |]. split; [reflexivity |]. split; [reflexivity |].
    split; [reflexivity |]. split; [apply length_insert |]. split; [reflexivity |].
    split; [intros b Hb; now apply list_lookup_insert_ne |].
    split; [discriminate |].
    intros h0 E. inversion E; subst h0. split; [exact Hr |].
    eexists. split; [reflexivity |]. repeat split.
  - inversion H; subst. eexists.
    cbn [servers currentServer set_server].
    split; [reflexivity |]. split; [exact Hc |].
    split; [now apply list_lookup_insert_eq |].
    split; [reflexivity |]. split; [reflexivity |]. split; [reflexivity |].
    split; [reflexivity |]. split; [apply length_insert |]. split; [reflexivity |].
    split; [intros b Hb; now apply list_lookup_insert_ne |].
    split; [split; reflexivity | discriminate].
Qed.

(** X14: [stop] is not to be called twice on one server: the second
    call panics, closing the channel that the first has closed. *)
Theorem stop_twice_panics a st r st' :
  stop a st = Some (r, st') -> stop a st' = None.
Proof.
  intros H.
  destruct (stop_marks a st r st' H) as (s & s' & _ & _ & Hs' & Hc & _).
  unfold stop. now rewrite Hs', Hc.
Qed.

(** ** The goroutines of the other servers *)

(** The goroutines that are not of the server [a]. *)
Lemma others_app a gs g :
  of_server a g = true ->
  List.filter (fun g => negb (of_server a g)) (gs ++ [g])
  = List.filter (fun g => negb (of_server a g)) gs.
Proof.
  intros Hg. rewrite List.filter_app. cbn [List.filter]. rewrite Hg. cbn [negb].
  apply app_nil_r.
Qed.

Lemma others_filter a (f : Goroutine -> bool) gs :
  (forall g, f g = true -> of_server a g = true) ->
  List.filter (fun g => negb (of_server a g)) (List.filter (fun g => negb (f g)) gs)
  = List.filter (fun g => negb (of_server a g)) gs.
Proof.
  intros Hf. induction gs as [| g gs IH]; [reflexivity |].
  cbn [List.filter]. destruct (f g) eqn:Hfg; cbn [negb List.filter].
  - rewrite (Hf g Hfg). cbn [negb]. exact IH.
  - destruct (of_server a g); cbn [negb]; now rewrite IH.
Qed.

Lemma is_spawned_of a g : is_spawned a g = true -> of_server a g = true.
Proof. now destruct g. Qed.

Lemma is_checked_of a g : is_checked a g = true -> of_server a g = true.
Proof. now destruct g. Qed.

Lemma is_serving_of a g : is_serving a g = true -> of_server a g = true.
Proof. now destruct g. Qed.

Lemma enter_others a st :
  List.filter (fun g => negb (of_server a g)) (goroutines (enter a st))
  = List.filter (fun g => negb (of_server a g)) (goroutines st).
Proof.
  unfold enter. destruct (servers st !! a) as [s |]; [| reflexivity].
  destruct (httpServer s) as [h |]; [| reflexivity].
  destruct (inShutdown h); [reflexivity |].
  cbn [goroutines set_goroutines add_log]. apply others_app.
  cbn [of_server]. apply Nat.eqb_refl.
Qed.

Lemma bind_others a st :
  List.filter (fun g => negb (of_server a g)) (goroutines (bind a st))
  = List.filter (fun g => negb (of_server a g)) (goroutines st).
Proof.
  unfold bind. destruct (servers st !! a) as [s |]; [| reflexivity].
  destruct (httpServer s) as [h |]; [| reflexivity].
  destruct (listen (Addr h)); [reflexivity |].
  destruct (inShutdown h); [reflexivity |].
  cbn [goroutines set_goroutines]. apply others_app.
  cbn [of_server]. apply Nat.eqb_refl.
Qed.

(** A step of the goroutine of [a] leaves the goroutines of the
    other servers as they are. *)
Lemma schedule_others a st :
  List.filter (fun g => negb (of_server a g)) (goroutines (schedule a st))
  = List.filter (fun g => negb (of_server a g)) (goroutines st).
Proof.
  unfold schedule. destruct (existsb (is_spawned a) (goroutines st)).
  - rewrite enter_others. unfold drop. cbn [goroutines set_goroutines].
    apply others_filter, is_spawned_of.
  - destruct (existsb (is_checked a) (goroutines st)); [| reflexivity].
    rewrite bind_others. unfold drop. cbn [goroutines set_goroutines].
    apply others_filter, is_checked_of.
Qed.

(** A step of a goroutine only adds to the log. *)
Lemma schedule_log a st : exists added, log (schedule a st) = (log st ++ added)%list.
Proof.
  unfold schedule, enter, bind, drop.
  destruct (existsb (is_spawned a) (goroutines st)).
  - cbn [servers set_goroutines]. destruct (servers st !! a) as [s |].
    + destruct (httpServer s) as [h |]; [destruct (inShutdown h) |];
        eexists; reflexivity.
    + exists []. cbn [log set_goroutines]. now rewrite app_nil_r.
  - destruct (existsb (is_checked a) (goroutines st)).
    + cbn [servers set_goroutines]. destruct (servers st !! a) as [s |].
      * destruct (httpServer s) as [h |].
        -- destruct (listen (Addr h)); [eexists; reflexivity |].
           destruct (inShutdown h); exists []; cbn [log set_goroutines];
             now rewrite app_nil_r.
        -- exists []. cbn [log set_goroutines]. now rewrite app_nil_r.
      * exists []. cbn [log set_goroutines]. now rewrite app_nil_r.
    + exists []. now rewrite app_nil_r.
Qed.

(** A goroutine that is neither new nor about to bind has nothing
    left to do. *)
Lemma schedule_idle a st :
  existsb (is_spawned a) (goroutines st) = false ->
  existsb (is_checked a) (goroutines st) = false ->
  schedule a st = st.
Proof. intros H1 H2. unfold schedule. now rewrite H1, H2. Qed.

(** X15: when [stop] returns nil on a server that was started, no
    goroutine of that server is left, whatever it was doing, and the
    goroutines of the other servers are as they were; the log has only
    grown, and it has not grown at all when the goroutine had bound
    its port or ended before. *)
Theorem stop_drains a st s h st' :
  servers st !! a = Some s ->
  httpServer s = Some h ->
  stop a st = Some (None, st') ->
  no_goroutine_of a st' /\
  goroutines st' = List.filter (fun g => negb (of_server a g)) (goroutines st) /\
  (exists added, log st' = (log st ++ added)%list) /\
  (existsb (is_spawned a) (goroutines st) = false ->
   existsb (is_checked a) (goroutines st) = false ->
   log st' = log st).
Proof.
  intros Ha Hh H. unfold stop in H. rewrite Ha, Hh in H.
  destruct (stopChan_closed s); [discriminate |].
  destruct (shutdown (Addr h)) as [err |]; [discriminate |].
  inversion H; subst st'. clear H.
  set (s' := {| httpServer := Some _; port := port s; path := path s;
                registry := registry s; stopChan_closed := true |}).
  set (st1 := drop (is_serving a) (set_server a s' st)).
  assert (Hg1 : goroutines st1
                = List.filter (fun g => negb (is_serving a g)) (goroutines st))
    by reflexivity.
  assert (Hl1 : log st1 = log st) by reflexivity.
  split; [| split; [| split]].
  - intros g Hg. unfold wait, drop in Hg. cbn [goroutines set_goroutines] in Hg.
    apply filter_In in Hg as [_ Hg]. now apply negb_true_iff in Hg.
  - unfold wait, drop. cbn [goroutines set_goroutines].
    rewrite !schedule_others, Hg1. apply others_filter, is_serving_of.
  - unfold wait, drop. cbn [log set_goroutines].
    destruct (schedule_log a (schedule a st1)) as [added2 ->].
    destruct (schedule_log a st1) as [added1 ->].
    exists (added1 ++ added2)%list. now rewrite Hl1, app_assoc.
  - intros Hsp Hch.
    assert (Hidle : schedule a st1 = st1).
    { apply schedule_idle; rewrite Hg1.
      - clear -Hsp. induction (goroutines st) as [| g gs IH]; [reflexivity |].
        cbn [existsb] in Hsp. apply orb_false_iff in Hsp as [Hg Hgs].
        cbn [List.filter]. destruct (negb (is_serving a g)); [| now apply IH].
        cbn [existsb]. now rewrite Hg, IH.
      - clear -Hch. induction (goroutines st) as [| g gs IH]; [reflexivity |].
        cbn [existsb] in Hch. apply orb_false_iff in Hch as [Hg Hgs].
        cbn [List.filter]. destruct (negb (is_serving a g)); [| now apply IH].
        cbn [existsb]. now rewrite Hg, IH. }
    unfold wait, drop. cbn [log set_goroutines]. now rewrite !Hidle.
Qed.

(** X16: [stopServer] clears [currentServer] whatever [stop] returns,
    so that calling it again is a no-op that returns nil; when the
    shutdown of the server fails, the error is returned and nothing is
    logged; the goroutine of the server is not waited for, but when it
    was serving it has ended, its listener being closed. *)
Theorem stopServer_clears st r st' :
  stopServer st = Some (r, st') ->
  currentServer st' = None /\
  stopServer st' = Some (None, st') /\
  (forall cur s h err,
      currentServer st = Some cur ->
      servers st !! cur = Some s ->
      httpServer s = Some h ->
      shutdown (Addr h) = Some err ->
      r = Some err /\
      goroutines st'
      = List.filter (fun g => negb (is_serving cur g)) (goroutines st) /\
      log st' = log st).
Proof.
  unfold stopServer. intros H.
  destruct (currentServer st) as [cur |] eqn:Hc.
  - destruct (stop cur st) as [[e st1] |] eqn:Hstop; [| discriminate].
    inversion H; subst r st'. cbn [currentServer set_current].
    split; [reflexivity |]. split; [reflexivity |].
    intros cur0 s h err E Hs Hh Herr. inversion E; subst cur0.
    unfold stop in Hstop. rewrite Hs, Hh, Herr in Hstop.
    destruct (stopChan_closed s); [discriminate |].
    inversion Hstop; subst. repeat split.
  - inversion H; subst. rewrite Hc. split; [reflexivity |].
    split; [reflexivity |]. discriminate.
Qed.

(** X17: when a server is current, [startServer] on a path that the
    mux takes stops it before it starts the new one and returns nil
    even when that stop fails: the old server's channel is closed and
    its [http.Server] is shutting down, and the new server is another
    struct. *)
Theorem startServer_replaces prt pth rg st cur s h :
  startable pth = true ->
  currentServer st = Some cur ->
  servers st !! cur = Some s ->
  stopChan_closed s = false ->
  httpServer s = Some h ->
  exists st' s' h',
    startServer prt pth rg st = Some (None, st') /\
    currentServer st' = Some (length (servers st)) /\
    length (servers st) <> cur /\
    servers st' !! cur = Some s' /\
    stopChan_closed s' = true /\
    httpServer s' = Some h' /\
    inShutdown h' = true.
Proof.
  intros Hok Hc Hs Hopen Hh.
  destruct (stop_open cur st s Hs Hopen) as (r & st1 & Hstop & Hlen & _).
  destruct (stop_marks cur st r st1 Hstop)
    as (s0 & s' & Hs0 & _ & Hs' & Hcl & _ & _ & _ & _ & _ & _ & _ & Hhttp).
  assert (s0 = s) by congruence. subst s0.
  destruct (Hhttp h Hh) as (_ & h' & Hh' & Hsd & _).
  pose proof (lookup_lt_Some _ _ _ Hs) as Hlt.
  exists (started prt pth rg st1), s', h'.
  split; [exact (startServer_replace prt pth rg st cur r st1 Hok Hc Hstop) |].
  cbn [currentServer servers started]. rewrite Hlen.
  split; [reflexivity |]. split; [lia |].
  split; [rewrite lookup_app_l by lia; exact Hs' |].
  auto.
Qed.

Lemma current_open_frame st st' :
  servers st' = servers st -> currentServer st' = currentServer st ->
  current_open st -> current_open st'.
Proof. intros Hs Hc Hopen cur Hcur. rewrite Hs. apply Hopen. congruence. Qed.

(** One operation keeps [currentServer] open and does not panic. *)
Lemma step_open op st :
  current_open st ->
  (forall prt pth rg, op = OpStart prt pth rg -> startable pth = true) ->
  exists r st',
    step op st = Some (r, st') /\ current_open st' /\
    (forall prt pth rg, op = OpStart prt pth rg -> r = None).
Proof.
  intros Hopen Hok. destruct op as [prt pth rg | | a]; cbn [step].
  - destruct (startServer_runs prt pth rg st Hopen (Hok prt pth rg eq_refl))
      as (st1 & _ & Hrun).
    eexists _, _. split; [exact Hrun |].
    split; [apply started_current_open | reflexivity].
  - destruct (stopServer_runs st Hopen) as (r & st' & Hrun & Hnone).
    exists r, st'. split; [exact Hrun |].
    split; [intros cur Hc; congruence | discriminate].
  - eexists _, _. split; [reflexivity |].
    destruct (schedule_frame a st) as [Hs Hc].
    split; [exact (current_open_frame st _ Hs Hc Hopen) | discriminate].
Qed.

Lemma run_open ops :
  forall st, current_open st -> starts_ok ops ->
    exists rs st',
      run ops st = Some (rs, st') /\ current_open st' /\
      length rs = length ops /\
      (forall i prt pth rg,
          ops !! i = Some (OpStart prt pth rg) -> rs !! i = Some None).
Proof.
  induction ops as [| op ops IH]; intros st Hopen Hok.
  - exists [], st. repeat split; [exact Hopen | intros i ? ? ? H; discriminate H].
  - assert (Hop : forall prt pth rg, op = OpStart prt pth rg -> startable pth = true)
      by (intros prt pth rg ->; apply (Hok prt pth rg); now left).
    assert (Hrest : starts_ok ops)
      by (intros prt pth rg Hin; apply (Hok prt pth rg); now right).
    destruct (step_open op st Hopen Hop) as (r & st1 & Hstep & Hopen1 & Hnil).
    destruct (IH st1 Hopen1 Hrest) as (rs & st' & Hrun & Hopen' & Hlen & Hstarts).
    exists (r :: rs), st'. cbn [run]. rewrite Hstep, Hrun.
    split; [reflexivity |]. split; [exact Hopen' |].
    split; [cbn; now rewrite Hlen |].
    intros [| i] prt pth rg Hi; cbn in *.
    + inversion Hi; subst op. now rewrite (Hnil prt pth rg eq_refl).
    + eauto.
Qed.

(** A sequence with a start on a path that the mux does not take
    panics at the first such start, if not before. *)
Lemma run_rejected ops1 prt pth rg ops2 st :
  startable pth = false ->
  run (ops1 ++ OpStart prt pth rg :: ops2) st = None.
Proof.
  intros Hno. revert st. induction ops1 as [| op ops1 IH]; intros st.
  - cbn [app run step]. now rewrite startServer_rejected.
  - cbn [app run]. destruct (step op st) as [[r st1] |]; [| reflexivity].
    now rewrite IH.
Qed.

End ServerMore.

Section LifecycleClaims.
Import Server Lifecycle.

(** X18: from the state of a fresh process, and from any state in
    which the current server has not been stopped, no sequence of
    [startServer] on paths that the mux takes, [stopServer] and steps
    of the goroutines panics, whatever the network does; every
    [startServer] in it returns nil, and the current server is never a
    stopped one.  A sequence with a [startServer] on a path that the
    mux does not take panics. *)
Theorem lifecycle_never_panics (N : Net) ops st :
  current_open st ->
  ((forall prt pth rg, In (OpStart prt pth rg) ops -> startable pth = true) ->
   exists rs st',
     run ops st = Some (rs, st') /\
     current_open st' /\
     length rs = length ops /\
     (forall i prt pth rg,
         ops !! i = Some (OpStart prt pth rg) -> rs !! i = Some None)) /\
  (forall prt pth rg,
      In (OpStart prt pth rg) ops -> startable pth = false -> run ops st = None).
Proof.
  intros Hopen. split.
  - intros Hok. exact (run_open ops st Hopen Hok).
  - intros prt pth rg Hin Hno.
    apply in_split in Hin as (ops1 & ops2 & ->).
    now apply run_rejected.
Qed.

Lemma lifecycle_never_panics_witness :
  current_open initial /\
  (exists rs st',
    @run stuck_net [OpStart 2112 "/metrics" 0; OpSchedule 0; OpStart 2112 "/metrics" 0;
                    OpSchedule 0; OpSchedule 1; OpStop; OpStop] initial
    = Some (rs, st')) /\
  @run stuck_net [OpStart 2112 "/health" 0] initial = None.
Proof.
  split; [exact initial_current_open |].
  split.
  - destruct (lifecycle_never_panics stuck_net
                [OpStart 2112 "/metrics" 0; OpSchedule 0; OpStart 2112 "/metrics" 0;
                 OpSchedule 0; OpSchedule 1; OpStop; OpStop] initial
                initial_current_open)
      as [Hruns _].
    destruct Hruns as (rs & st' & Hrun & _).
    + intros prt pth rg Hin. cbn [In] in Hin.
      destruct Hin as [H | [H | [H | [H | [H | [H | [H | []]]]]]]];
        inversion H; reflexivity.
    + exists rs, st'. exact Hrun.
  - destruct (lifecycle_never_panics stuck_net [OpStart 2112 "/health" 0] initial
                initial_current_open)
      as [_ Hpanic].
    apply (Hpanic 2112%Z "/health" 0); [now left | reflexivity].
Defined.

End LifecycleClaims.

(** ** Options and their defaults *)

Section OptionsFacts.
Import Options.
Context `{B : Backend} `{E : Env}.
Variable DefaultHistogramBuckets : list spec_float.
Variable NewRegistry : registry_state.

Lemma port_from_port_of vars :
  port_from vars =
    match vars with
    | [] => 0%Z
    | v :: rest => match port_of v with
                   | Some port => port
                   | None => port_from rest
                   end
    end.
Proof.
  destruct vars as [| v rest]; [reflexivity |].
  cbn [port_from]. unfold port_of.
  destruct (nonempty (Getenv v)); [| reflexivity].
  destruct (Atoi (Getenv v)) as [port |]; [| reflexivity].
  now destruct (0 <? port)%Z.
Qed.

Lemma port_of_positive v port : port_of v = Some port -> (0 < port)%Z.
Proof.
  unfold port_of. destruct (nonempty (Getenv v)); [| discriminate].
  destruct (Atoi (Getenv v)) as [p |]; [| discriminate].
  destruct (0 <? p)%Z eqn:Hp; [| discriminate].
  intros H. inversion H; subst. now apply Z.ltb_lt.
Qed.

Lemma port_from_nonneg vars : (0 <= port_from vars)%Z.
Proof.
  induction vars as [| v rest IH]; [cbn; lia |].
  rewrite port_from_port_of.
  destruct (port_of v) as [port |] eqn:Hv; [| exact IH].
  apply port_of_positive in Hv. lia.
Qed.

(** X19: the port taken from the environment is that of the first of
    the two variables, [SVCKIT_METRIC_PROMETHEUS_PORT] before
    [PROMETHEUS_PORT], whose value reads as a positive decimal number;
    a value that is empty, not a number, zero or negative is passed
    over, and with no usable value the result is 0, never a negative
    number. *)
Theorem getPortFromEnv_first_positive :
  getPortFromEnv =
    match port_of "SVCKIT_METRIC_PROMETHEUS_PORT" with
    | Some port => port
    | None => match port_of "PROMETHEUS_PORT" with
              | Some port => port
              | None => 0%Z
              end
    end /\
  (0 <= getPortFromEnv)%Z /\
  (forall envVar port, port_of envVar = Some port ->
     (0 < port)%Z /\ Atoi (Getenv envVar) = Some port /\ Getenv envVar <> "").
Proof.
  split; [| split].
  - unfold getPortFromEnv, staticPrometheusEnvVars.
    now rewrite !port_from_port_of.
  - apply port_from_nonneg.
  - intros envVar port H. split; [exact (port_of_positive envVar port H) |].
    unfold port_of in H. unfold nonempty in H.
    destruct (String.eqb (Getenv envVar) "") eqn:He; [discriminate |].
    apply String.eqb_neq in He. cbn [negb] in H.
    destruct (Atoi (Getenv envVar)) as [p |]; [| discriminate].
    destruct (0 <? p)%Z; [| discriminate].
    inversion H; subst. split; [reflexivity | exact He].
Qed.

Lemma nonempty_true s : nonempty s = true <-> s <> "".
Proof.
  unfold nonempty. rewrite negb_true_iff. apply String.eqb_neq.
Qed.

Lemma append_dot_nonempty s : s ++ "." <> "".
Proof. destruct s; discriminate. Qed.

(** X20: the default prefix is empty when the application has no
    name, whatever its instance id; otherwise it ends in a dot, so that
    the store [WithPrefix] derives for it carries it as it is. *)
Theorem getDefaultPrefix_shape :
  (AppName = "" -> getDefaultPrefix = "") /\
  (AppName <> "" ->
   getDefaultPrefix <> "" /\
   Store.hasSuffixDot getDefaultPrefix = true /\
   forall s, Store.prefix (Store.child_store getDefaultPrefix s) = getDefaultPrefix).
Proof.
  unfold getDefaultPrefix. split.
  - intros ->. reflexivity.
  - intros Hne. apply nonempty_true in Hne. rewrite Hne. cbn [andb].
    assert (Hdot : forall a, Store.hasSuffixDot (a ++ ".") = true)
      by (intros a; apply hasSuffixDot_app_dot).
    destruct (nonempty InstanceId).
    + assert (Hassoc : AppName ++ "." ++ InstanceId ++ "."
                       = (AppName ++ "." ++ InstanceId) ++ ".").
      { generalize AppName as a. induction a as [| c a IH]; [reflexivity |].
        change (String c (a ++ "." ++ InstanceId ++ ".")
                = String c ((a ++ "." ++ InstanceId) ++ ".")).
        now f_equal. }
      rewrite Hassoc. split; [apply append_dot_nonempty |].
      split; [apply Hdot |].
      intros s. cbn [Store.prefix Store.child_store]. now rewrite Hdot.
    + split; [apply append_dot_nonempty |]. split; [apply Hdot |].
      intros s. cbn [Store.prefix Store.child_store]. now rewrite Hdot.
Qed.

Lemma set_prefix_same o : set_prefix (prefix o) o = o.
Proof. now destruct o. Qed.

(** X21: [Validate] never fails and leaves no setting open: the port
    is not 0 (an explicit port is kept even when negative; a missing
    one becomes the port that [getPortFromEnv] finds in the
    environment, and 2112 when it finds none, a positive port either
    way), the path is not empty (a missing one becomes ["/metrics"]),
    the buckets and the registry are there (missing buckets become the
    default buckets); a registry that was given is kept and nothing is
    added to the heap, a missing one is a new registry at an address
    that was free; namespace and subsystem are kept, and an empty
    prefix becomes the default prefix. *)
Theorem Validate_fills_defaults o w err o' w' :
  Validate DefaultHistogramBuckets NewRegistry o w = (err, o', w') ->
  err = None /\
  port o' <> 0%Z /\
  (port o <> 0%Z -> port o' = port o) /\
  (port o = 0%Z -> (0 < port o')%Z) /\
  path o' <> "" /\
  (path o <> "" -> path o' = path o) /\
  buckets o' <> None /\
  (forall b, buckets o = Some b -> buckets o' = Some b) /\
  (forall r, registry o = Some r -> registry o' = Some r /\ w' = w) /\
  (registry o = None ->
   exists r, registry o' = Some r /\
             Store.registries w !! r = None /\
             Store.registries w' !! r = Some NewRegistry /\
             Store.stores w' = Store.stores w /\
             forall r', r' <> r -> Store.registries w' !! r' = Store.registries w !! r') /\
  namespace o' = namespace o /\
  subsystem o' = subsystem o /\
  prefix o' = (if String.eqb (prefix o) "" then getDefaultPrefix else prefix o) /\
  (port o = 0%Z -> getPortFromEnv <> 0%Z -> port o' = getPortFromEnv) /\
  (port o = 0%Z -> getPortFromEnv = 0%Z -> port o' = 2112%Z) /\
  (path o = "" -> path o' = "/metrics") /\
  (buckets o = None -> buckets o' = Some DefaultHistogramBuckets).
Proof.
  rewrite Validate_stages. intros H. inversion H; subst err o' w'. clear H.
  cbn [port path prefix buckets registry namespace subsystem].
  split; [reflexivity |].
  pose proof (port_from_nonneg staticPrometheusEnvVars) as Hnn.
  fold getPortFromEnv in Hnn.
  split.
  { destruct (port o =? 0)%Z eqn:Hp; [| now apply Z.eqb_neq in Hp].
    destruct (getPortFromEnv =? 0)%Z eqn:Hg; [discriminate | now apply Z.eqb_neq in Hg]. }
  split.
  { intros Hp. apply Z.eqb_neq in Hp. now rewrite Hp. }
  split.
  { intros ->. rewrite Z.eqb_refl.
    destruct (getPortFromEnv =? 0)%Z eqn:Hg; [reflexivity |].
    apply Z.eqb_neq in Hg. lia. }
  split.
  { destruct (String.eqb (path o) "") eqn:Hp; [discriminate | now apply String.eqb_neq]. }
  split.
  { intros Hp. apply String.eqb_neq in Hp. now rewrite Hp. }
  split; [destruct (buckets o); discriminate |].
  split; [intros b ->; reflexivity |].
  split; [intros r ->; split; reflexivity |].
  split.
  { intros ->. eexists. split; [reflexivity |].
    split; [apply not_elem_of_dom, is_fresh |].
    cbn [Store.registries Store.stores Store.set_registries].
    split; [apply lookup_insert_eq |]. split; [reflexivity |].
    intros r' Hr'. now apply lookup_insert_ne. }
  split; [reflexivity |]. split; [reflexivity |]. split; [reflexivity |].
  split.
  { intros -> Hg. apply Z.eqb_neq in Hg. rewrite Z.eqb_refl. now rewrite Hg. }
  split.
  { intros -> ->. reflexivity. }
  split.
  { intros ->. reflexivity. }
  intros ->. reflexivity.
Qed.

(** X22: validating validated options changes nothing: the second
    pass returns the same options and the same heap, and makes no new
    registry. *)
Theorem Validate_idempotent o w err o' w' :
  Validate DefaultHistogramBuckets NewRegistry o w = (err, o', w') ->
  Validate DefaultHistogramBuckets NewRegistry o' w' = (None, o', w').
Proof.
  rewrite Validate_stages. intros H. inversion H; subst err o' w'. clear H.
  rewrite Validate_stages.
  cbn [port path prefix buckets registry namespace subsystem].
  pose proof (port_from_nonneg staticPrometheusEnvVars) as Hnn.
  fold getPortFromEnv in Hnn.
  assert (Hport : forall x : Z, x <> 0%Z -> (x =? 0)%Z = false)
    by (intros x; apply Z.eqb_neq).
  assert (Hstr : forall x : string, x <> "" -> String.eqb x "" = false)
    by (intros x; apply String.eqb_neq).
  f_equal; [f_equal |].
  - destruct o as [pre prt pth ns ss bk rg]. cbn [port path prefix buckets registry namespace subsystem].
    f_equal.
    + destruct (String.eqb pre "") eqn:Hpre; [| now rewrite Hpre].
      now destruct (String.eqb getDefaultPrefix "").
    + destruct (prt =? 0)%Z eqn:Hp; [| now rewrite Hp].
      destruct (getPortFromEnv =? 0)%Z eqn:Hg; [reflexivity | now rewrite Hg].
    + destruct (String.eqb pth "") eqn:Hp; [reflexivity | now rewrite Hp].
    + now destruct bk.
    + now destruct rg.
  - now destruct (registry o).
Qed.

End OptionsFacts.

(** ** Dialling: the first success *)

Section DialingMore.
Import Dialing.
Variable Dial : nat -> option error.

Lemma again_success j :
  forall n fuel,
    (n + j <= 11)%nat -> (j < fuel)%nat ->
    (forall i, (n <= i < n + j)%nat -> Dial i <> None) ->
    Dial (n + j) = None ->
    exists tr,
      again Dial fuel (Z.of_nat n) n = (Returned, tr) /\
      attempts tr = (j + 1)%nat /\ sleeps tr = j /\ fatals tr = 0%nat /\
      pauses_one_second tr.
Proof.
  induction j as [| j IH]; intros n fuel Hle Hfuel Hfail Hok;
    (destruct fuel as [| fuel]; [lia |]); cbn [again].
  - rewrite Nat.add_0_r in Hok. rewrite Hok.
    eexists. split; [reflexivity |]. repeat split.
    intros ns [Hin | []]. discriminate.
  - destruct (Dial n) as [err |] eqn:Hd; [| exfalso; apply (Hfail n); [lia | exact Hd]].
    assert (Hr : (10 <? Z.of_nat n)%Z = false) by (apply Z.ltb_ge; lia).
    rewrite Hr, add_one_small by lia.
    destruct (IH (S n) fuel) as (tr & Hrun & Hatt & Hsl & Hfat & Hpause).
    + lia.
    + lia.
    + intros i Hi. apply Hfail. lia.
    + now replace (S n + j)%nat with (n + S j)%nat by lia.
    + rewrite Hrun. eexists. split; [reflexivity |].
      unfold attempts, sleeps, fatals in *. cbn.
      split; [lia |]. split; [lia |]. split; [lia |].
      intros ns [Hin | [Hin | Hin]];
        [discriminate | now inversion Hin | now apply Hpause].
Qed.

(** X23: [MustDial] returns as soon as a call of [Dial] succeeds: when
    the first [k] calls fail, [k] being 11 at most, and the next one
    succeeds, it has called [Dial] [k + 1] times, has slept one second
    [k] times, and has logged nothing fatal; when the first call
    succeeds it does not sleep at all. *)
Theorem MustDial_returns_after_first_success k fuel :
  (k <= 11)%nat -> (k < fuel)%nat ->
  (forall i, (i < k)%nat -> Dial i <> None) ->
  Dial k = None ->
  exists tr,
    MustDial Dial fuel = (Returned, tr) /\
    attempts tr = (k + 1)%nat /\
    sleeps tr = k /\
    fatals tr = 0%nat /\
    pauses_one_second tr.
Proof.
  intros Hk Hfuel Hfail Hok.
  apply (again_success k 0 fuel); [lia | lia | | exact Hok].
  intros i Hi. apply Hfail. lia.
Qed.

End DialingMore.

(** ** The further properties at work on concrete inputs *)

Section MoreInstances.
Import Store.

Lemma sanitizeName_fixed_points_witness :
  ("up_time" = "" \/ matches_identifier "up_time" = true) /\
  sanitizeName "up_time" = "up_time".
Proof.
  split; [right; reflexivity |].
  apply (proj2 (sanitizeName_fixed_points "up_time")). right. reflexivity.
Defined.


Lemma getOrCreate_frame_witness :
  exists h w',
    @getOrCreate accepting_backend KGauge 0 "load" (root_world accepting_backend tt)
    = Some (h, w') /\
    length (stores w') = 1.
Proof.
  destruct (@getOrCreate_returns accepting_backend KGauge 0 "load"
              (root_world accepting_backend tt) root_store tt eq_refl eq_refl)
    as (h & w' & Hrun).
  exists h, w'. split; [exact Hrun |].
  exact (proj1 (@getOrCreate_frame accepting_backend KGauge 0 "load" _ h w' Hrun)).
Defined.

Lemma Counter_twice_same_handle_witness :
  exists w1 w2,
    @Counter accepting_backend 0 "x" [] (root_world accepting_backend tt) = Some (tt, w1) /\
    @Counter accepting_backend 0 "x" [5]%Z w1 = Some (tt, w2) /\
    calls w2 = [(0, Add (Float64.of_int 1)); (0, Add (Float64.of_int 5))].
Proof.
  destruct (@Counter accepting_backend 0 "x" [] (root_world accepting_backend tt))
    as [[[] w1] |] eqn:Hrun1; [| vm_compute in Hrun1; discriminate Hrun1].
  assert (Hw1 : exists s1, stores w1 !! 0 = Some s1 /\ counters s1 !! "x" = Some 0).
  { vm_compute in Hrun1. inversion Hrun1; subst w1.
    eexists. split; [reflexivity |]. vm_compute. reflexivity. }
  destruct Hw1 as (s1 & Hs1 & Hh).
  destruct (@Counter_twice_same_handle accepting_backend 0 "x" [] [5]%Z
              (root_world accepting_backend tt) w1 s1 0 Hrun1 Hs1 Hh)
    as (w2 & Hrun2 & Hcalls).
  exists w1, w2. split; [reflexivity |]. split; [exact Hrun2 | exact Hcalls].
Defined.

Lemma Gauge_sets_value_witness :
  exists w2,
    @Gauge accepting_backend 0 "load" (-5) (root_world accepting_backend tt)
    = Some (tt, w2) /\
    calls w2 = [(0, Set_ (Float64.of_int (-5)))].
Proof.
  destruct (@Gauge_sets_value accepting_backend 0 "load" (-5)%Z
              (root_world accepting_backend tt) root_store tt)
    as (h & w1 & w2 & Hget & Hrun & Hcalls & _); try reflexivity.
  exists w2. split; [exact Hrun |].
  rewrite Hcalls. vm_compute in Hget. inversion Hget. reflexivity.
Defined.

Lemma Timing_observes_after_witness :
  exists h w2,
    @Timing accepting_backend 0 "latency" idle 1500000 (root_world accepting_backend tt)
    = Some (tt, w2) /\
    calls w2 = [(h, Observe (Float64.div (Float64.of_int 1500000) Float64.c1e9))].
Proof.
  destruct (proj2 (@Timing_observes_after accepting_backend 0 "latency" idle 1500000
                     (root_world accepting_backend tt))
              (root_world accepting_backend tt) root_store tt
              eq_refl eq_refl eq_refl (or_intror eq_refl))
    as (h & w2 & Hrun & Hcalls).
  exists h, w2. split; [exact Hrun | exact Hcalls].
Defined.

Lemma names_sanitizing_alike_share_handle_witness :
  ("a.b" <> "a_b" /\ sanitizeName "a.b" = sanitizeName "a_b") /\
  exists h1 w1,
    @getOrCreate accepting_backend KCounter 0 "a.b" (root_world accepting_backend tt)
    = Some (h1, w1).
Proof.
  split; [split; [discriminate | reflexivity] |].
  destruct (@names_sanitizing_alike_share_handle accepting_backend KCounter 0
              "a.b" "a_b" (root_world accepting_backend tt) root_store tt)
    as (h1 & w1 & s1 & reg1 & Hrun & _); try reflexivity; try discriminate.
  exists h1, w1. exact Hrun.
Defined.

Lemma root_not_cached q : forall c, prefixes root_store !! q <> Some (Some c).
Proof. intros c. cbn [prefixes root_store]. rewrite lookup_empty. discriminate. Qed.

Lemma WithPrefix_builds_child_witness :
  exists a w1 child,
    @WithPrefix accepting_backend 0 "api" (root_world accepting_backend tt)
    = Some (a, w1) /\
    stores w1 !! a = Some child /\ prefix child = "api.".
Proof.
  destruct (@WithPrefix_builds_child accepting_backend 0 "api"
              (root_world accepting_backend tt) root_store eq_refl (root_not_cached "api"))
    as (a & w1 & child & Hrun & _ & Hchild & _ & _ & _ & _ & _ & _ & _ & _ & Hpre & _).
  exists a, w1, child. split; [exact Hrun |]. split; [exact Hchild | exact Hpre].
Defined.

Lemma WithPrefix_dot_makes_twin_witness :
  exists a b w1 w2,
    @WithPrefix accepting_backend 0 "api" (root_world accepting_backend tt)
    = Some (a, w1) /\
    @WithPrefix accepting_backend 0 "api." w1 = Some (b, w2) /\
    a <> b.
Proof.
  destruct (@WithPrefix_dot_makes_twin accepting_backend 0 "api"
              (root_world accepting_backend tt) root_store eq_refl eq_refl
              (root_not_cached "api") (root_not_cached ("api" ++ ".")))
    as (a & b & w1 & w2 & sa & sb & Hrun1 & Hrun2 & Hne & _).
  exists a, b, w1, w2. split; [exact Hrun1 |]. split; [exact Hrun2 | exact Hne].
Defined.

Lemma WithPrefix_empty_prefix_witness :
  exists a w1 child,
    @WithPrefix accepting_backend 0 "" (root_world accepting_backend tt) = Some (a, w1) /\
    stores w1 !! a = Some child /\
    buildMetricName child "requests" = "_requests".
Proof.
  destruct (@WithPrefix_empty_prefix accepting_backend 0
              (root_world accepting_backend tt) root_store eq_refl (root_not_cached ""))
    as (a & w1 & child & Hrun & Hchild & _ & Hname).
  exists a, w1, child. split; [exact Hrun |]. split; [exact Hchild |].
  exact (Hname "requests").
Defined.

Lemma WithPrefix_frame_witness :
  exists a w1,
    @WithPrefix accepting_backend 0 "api" (root_world accepting_backend tt)
    = Some (a, w1) /\
    log w1 = [] /\ calls w1 = [].
Proof.
  destruct (@WithPrefix_returns accepting_backend 0 "api"
              (root_world accepting_backend tt) root_store eq_refl)
    as (a & w1 & Hrun).
  destruct (@WithPrefix_frame accepting_backend 0 "api" _ a w1 Hrun)
    as (_ & _ & _ & Hlog & Hcalls & _).
  exists a, w1. split; [exact Hrun |]. split; assumption.
Defined.

Lemma AppendSuffix_stable_witness :
  exists a w1,
    @AppendSuffix accepting_backend 0 "v1" (root_world accepting_backend tt)
    = Some (a, w1) /\
    @AppendSuffix accepting_backend 0 "v1" w1 = Some (a, w1).
Proof.
  destruct (@AppendSuffix_stable accepting_backend 0 "v1"
              (root_world accepting_backend tt) root_store eq_refl)
    as [(a & w1 & Hrun & Hagain & _) _].
  exists a, w1. split; assumption.
Defined.

End MoreInstances.

Section MoreServerInstances.
Import Server Lifecycle.

Lemma one_server_lookup :
  servers one_server !! 0
  = Some {| httpServer := Some (built 2112 "/metrics"); port := 2112;
            path := "/metrics"; registry := 0; stopChan_closed := false |}.
Proof. reflexivity. Qed.

Lemma stop_twice_panics_witness :
  exists r st',
    @stop open_net 0 one_server = Some (r, st') /\ @stop open_net 0 st' = None.
Proof.
  destruct (@stop_open open_net 0 one_server _ one_server_lookup eq_refl)
    as (r & st' & Hrun & _).
  exists r, st'. split; [exact Hrun |].
  exact (@stop_twice_panics open_net 0 one_server r st' Hrun).
Defined.

Lemma stop_drains_witness :
  exists st',
    @stop open_net 0 one_server = Some (None, st') /\
    no_goroutine_of 0 st' /\ goroutines st' = [].
Proof.
  eexists. split; [reflexivity |].
  destruct (@stop_drains open_net 0 one_server _ (built 2112 "/metrics") _
              one_server_lookup eq_refl eq_refl)
    as (Hnone & Hothers & _).
  split; [exact Hnone | exact Hothers].
Defined.

Lemma stopServer_clears_witness :
  exists st',
    @stopServer stuck_net one_server = Some (Some deadline, st') /\
    currentServer st' = None /\
    @stopServer stuck_net st' = Some (None, st') /\
    goroutines st' = [Spawned 0].
Proof.
  eexists. split; [reflexivity |].
  destruct (@stopServer_clears stuck_net one_server (Some deadline) _ eq_refl)
    as (Hcur & Hagain & Hfail).
  split; [exact Hcur |]. split; [exact Hagain |].
  destruct (Hfail 0 _ (built 2112 "/metrics") deadline eq_refl one_server_lookup
              eq_refl eq_refl) as (_ & Hgs & _).
  exact Hgs.
Defined.

Lemma startServer_replaces_witness :
  exists st' s',
    @startServer stuck_net 9090 "/metrics" 0 one_server = Some (None, st') /\
    currentServer st' = Some 1 /\
    servers st' !! 0 = Some s' /\
    stopChan_closed s' = true.
Proof.
  destruct (@startServer_replaces stuck_net 9090%Z "/metrics" 0 one_server 0 _
              (built 2112 "/metrics") eq_refl eq_refl one_server_lookup eq_refl eq_refl)
    as (st' & s' & h' & Hrun & Hcur & _ & Hold & Hclosed & _).
  exists st', s'. repeat split; assumption.
Defined.

End MoreServerInstances.

Section MoreOptionsInstances.
Import Options.

Lemma getPortFromEnv_first_positive_witness :
  @port_of sample_env "PROMETHEUS_PORT" = Some 9100%Z /\
  (0 < 9100)%Z /\
  @getPortFromEnv sample_env = 9100%Z.
Proof.
  split; [reflexivity |].
  destruct (@getPortFromEnv_first_positive sample_env) as (Hfirst & _ & Hpos).
  split; [exact (proj1 (Hpos "PROMETHEUS_PORT" 9100%Z eq_refl)) |].
  rewrite Hfirst. reflexivity.
Defined.

Lemma getDefaultPrefix_shape_witness :
  @AppName sample_env <> "" /\
  Store.hasSuffixDot (@getDefaultPrefix sample_env) = true.
Proof.
  split; [discriminate |].
  destruct (@getDefaultPrefix_shape sample_env) as [_ Hshape].
  exact (proj1 (proj2 (Hshape ltac:(discriminate)))).
Defined.

Lemma Validate_fills_defaults_witness :
  exists err o' w',
    @Validate accepting_backend sample_env [] tt
      (MetricPrefix "" (@dial_defaults sample_env []))
      (root_world accepting_backend tt) = (err, o', w') /\
    err = None /\ port o' = 9100%Z /\ prefix o' = "billing.".
Proof.
  destruct (@Validate accepting_backend sample_env [] tt
              (MetricPrefix "" (@dial_defaults sample_env []))
              (root_world accepting_backend tt)) as [[err o'] w'] eqn:Hrun.
  destruct (@Validate_fills_defaults accepting_backend sample_env [] tt _ _ err o' w' Hrun)
    as (Herr & _ & _ & _ & _ & _ & _ & _ & _ & _ & _ & _ & Hprefix & Henv & _).
  exists err, o', w'. split; [reflexivity |]. split; [exact Herr |].
  split; [| exact Hprefix].
  rewrite (Henv eq_refl); [reflexivity | discriminate].
Defined.

Lemma Validate_idempotent_witness :
  exists err o' w',
    @Validate accepting_backend sample_env [] tt (@dial_defaults sample_env [])
      (root_world accepting_backend tt) = (err, o', w') /\
    @Validate accepting_backend sample_env [] tt o' w' = (None, o', w').
Proof.
  destruct (@Validate accepting_backend sample_env [] tt (@dial_defaults sample_env [])
              (root_world accepting_backend tt)) as [[err o'] w'] eqn:Hrun.
  exists err, o', w'. split; [reflexivity |].
  exact (@Validate_idempotent accepting_backend sample_env [] tt _ _ err o' w' Hrun).
Defined.

Lemma MustDial_returns_after_first_success_witness :
  exists tr,
    Dialing.MustDial third_time 12 = (Dialing.Returned, tr) /\
    Dialing.attempts tr = 3 /\ Dialing.sleeps tr = 2.
Proof.
  destruct (MustDial_returns_after_first_success third_time 2 12)
    as (tr & Hrun & Hatt & Hsl & _); try lia; try reflexivity.
  - intros i Hi. destruct i as [| [| i]]; [discriminate | discriminate | lia].
  - exists tr. repeat split; assumption.
Defined.

End MoreOptionsInstances.
